(** * @hoajs/adapter: the Node.js server adapter and the response-body contract

    The repository's executable code is [src/nodeServer.js]: an extension
    factory that creates one HTTP server around the application's fetch
    handler and installs a [listen] method on the application.

    The first part of this development embeds that module: JavaScript values
    with closures represented by their code pointer and captured environment,
    a store of objects, the host's list of HTTP servers, and a state-and-
    exception monad for the effects.

    The second part models the response-body normalisation that the test
    suite exercises through the adapter.  That code is not part of the
    repository's sources; it is modelled from the specification. *)

From Stdlib Require Import ZArith List String Ascii Bool Lia.
From Stdlib Require Import DecimalString DecimalZ DecimalPos DecimalFacts.
From stdpp Require Import gmap strings list fin_maps.

Local Open Scope string_scope.
Local Open Scope list_scope.

(** ** JavaScript values *)

Module Js.

Definition loc := nat.

(** Function values are closures: a constructor names the function's code
    and carries the variables it captures. *)
Inductive value : Type :=
| VUndefined
| VNull
| VBool (b : bool)
| VNumber (n : Z)
| VString (s : string)
| VObject (l : loc)
| VFunction (name : string)
    (* a function defined outside the module, e.g. a listen callback *)
| VFetchArrow (app : value)
    (* [request => app.fetch(request)], closed over [app] *)
| VServerAdapter (handler : value)
    (* the callable returned by [createServerAdapter(handler)] *)
| VHttpServer (id : nat)
    (* a handle on the host's [id]-th HTTP server *)
| VListen (httpServer : value)
    (* [function listen (...listenArgs)], closed over [httpServer] *)
| VNodeServerExtension (options : value).
    (* [function nodeServerExtension (app)], closed over [options] *)

Inductive error : Type :=
| TypeError (msg : string)
| ForeignCode (name : string)
    (* a step into code or objects that the model does not interpret *)
| Unallocated (l : loc).
    (* a reference to no object of the store; no JavaScript program has one *)

Inductive result (A : Type) : Type :=
| Ok (a : A)
| Throw (e : error).
Arguments Ok {A} a.
Arguments Throw {A} e.

(** The host's view of one HTTP server: the request listener it was created
    with and the argument lists its [listen] operation has received, oldest
    first. *)
Record http_server : Type := HttpServer {
  request_listener : value;
  listen_calls : list (list value)
}.

Record world : Type := World {
  heap : gmap loc (gmap string value);
  servers : list http_server
}.

Definition with_heap (h : gmap loc (gmap string value)) (w : world) : world :=
  World h (servers w).

Definition with_servers (s : list http_server) (w : world) : world :=
  World (heap w) s.

(** State and exceptions. *)
Definition M (A : Type) : Type := world -> result A * world.

Definition ret {A} (a : A) : M A := fun w => (Ok a, w).

Definition throw {A} (e : error) : M A := fun w => (Throw e, w).

Definition bind {A B} (m : M A) (k : A -> M B) : M B :=
  fun w =>
    match m w with
    | (Ok a, w') => k a w'
    | (Throw e, w') => (Throw e, w')
    end.

Global Instance M_ret : MRet M := @ret.
Global Instance M_bind : MBind M := fun A B k m => bind m k.

(** *** Property access on objects *)

(** The objects of the store are extensible records of writable data
    properties.  Booleans, numbers and strings are primitives; functions and
    server handles are objects of the host whose properties the model does
    not hold. *)

(** [target.key]: reading a property of [undefined] or [null] throws; a
    property that an object of the store does not have is [undefined]. *)
Definition get_property (target : value) (key : string) : M value :=
  fun w =>
    match target with
    | VUndefined | VNull =>
        (Throw (TypeError "Cannot read properties of undefined or null"), w)
    | VObject l =>
        match heap w !! l with
        | Some o => (Ok (default VUndefined (o !! key)), w)
        | None => (Throw (Unallocated l), w)
        end
    | _ => (Throw (ForeignCode "property read on a host value"), w)
    end.

(** [target.key = v] in strict-mode code (modules are strict): assigning to
    a property of [undefined], [null] or another primitive throws a
    TypeError. *)
Definition set_property (target : value) (key : string) (v : value) : M unit :=
  fun w =>
    match target with
    | VObject l =>
        match heap w !! l with
        | Some o => (Ok tt, with_heap (<[l := <[key := v]> o]> (heap w)) w)
        | None => (Throw (Unallocated l), w)
        end
    | VUndefined | VNull | VBool _ | VNumber _ | VString _ =>
        (Throw (TypeError "Cannot set properties of a primitive"), w)
    | _ => (Throw (ForeignCode "property write on a host value"), w)
    end.

End Js.

(** ** The host collaborators *)

Module Host.
Import Js.

(** Modelled from the spec: the request-adapter capability
    [createServerAdapter] of [@whatwg-node/server], which is imported by the
    module and not part of it.  It wraps a fetch-style handler into a
    connection handler and touches no state of the model. *)
Definition createServerAdapter (handler : value) : M value :=
  ret (VServerAdapter handler).

(** Modelled from the spec: the host capability
    [createServer(connectionHandler) -> serverHandle] of [http].  Every call
    creates a new server, which has not been asked to listen yet. *)
Definition createServer (requestListener : value) : M value :=
  fun w =>
    (Ok (VHttpServer (length (servers w))),
     with_servers (servers w ++ [HttpServer requestListener []]) w).

(** Modelled from the spec: what the host answers to a request to listen.
    The specification gives the answer where the request is in order (the
    handle, at once) and leaves the rest to the host, a repeated request
    for one; a host may as well throw there.  The answer is therefore a
    parameter: [listen_answer hosted id args] is what server [id] returns or
    throws when asked to listen on [args] while the host's servers are
    [hosted]. *)
Class ListenAnswer : Type :=
  listen_answer : list http_server -> nat -> list value -> result value.

(** Modelled from the spec: [serverHandle.listen(...)].  The server receives
    the argument list as it is, and the host's answer is the outcome of the
    call; binding happens later and reports through the handle's events,
    which the model does not follow. *)
Definition server_listen {answer : ListenAnswer} (this : value)
    (args : list value) : M value :=
  fun w =>
    match this with
    | VHttpServer id =>
        match servers w !! id with
        | Some s =>
            (listen_answer (servers w) id args,
             with_servers
               (<[id := HttpServer (request_listener s) (listen_calls s ++ [args])]>
                  (servers w)) w)
        | None => (Throw (ForeignCode "listen on a server the host never created"), w)
        end
    | _ => (Throw (TypeError "httpServer.listen is not a function"), w)
    end.

(** A host for examples, after Node's [http]: it answers the first request
    to a server with the handle and throws on a repeated one. *)
Definition strict_host : ListenAnswer :=
  fun hosted id _ =>
    match hosted !! id with
    | Some (HttpServer _ []) => Ok (VHttpServer id)
    | _ => Throw (ForeignCode "ERR_SERVER_ALREADY_LISTEN")
    end.

End Host.

(** ** src/nodeServer.js *)

Module NodeServer.
Import Js Host.

(** [function listen (...listenArgs) { return httpServer.listen(...listenArgs) }] *)
Definition listen {answer : ListenAnswer} (httpServer : value)
    (listenArgs : list value) : M value :=
  server_listen httpServer listenArgs.

(** [function nodeServerExtension (app) { ... }]; [options] is the captured
    parameter of the enclosing [nodeServer]. *)
Definition nodeServerExtension (options : value) (app : value) : M value :=
  serverAdapter ← createServerAdapter (VFetchArrow app);
  httpServer ← createServer serverAdapter;
  set_property app "listen" (VListen httpServer);;
  ret VUndefined.

(** [export default function nodeServer (options) { return function ... }] *)
Definition nodeServer (options : value) : value :=
  VNodeServerExtension options.

(** Calling a function value.  The closures of this module run their bodies;
    a missing argument is [undefined]. *)
Definition call {answer : ListenAnswer} (f : value) (args : list value)
  : M value :=
  match f with
  | VNodeServerExtension options =>
      nodeServerExtension options (nth 0 args VUndefined)
  | VListen httpServer => listen httpServer args
  | VFunction name => throw (ForeignCode name)
  | VFetchArrow _ => throw (ForeignCode "app.fetch")
  | VServerAdapter _ => throw (ForeignCode "serverAdapter")
  | _ => throw (TypeError "not a function")
  end.

(** [target.key(...args)] *)
Definition call_method {answer : ListenAnswer} (target : value)
    (key : string) (args : list value) : M value :=
  f ← get_property target key;
  call f args.

(** The [typeof] operator. *)
Definition typeof (v : value) : string :=
  match v with
  | VUndefined => "undefined"
  | VNull => "object"
  | VBool _ => "boolean"
  | VNumber _ => "number"
  | VString _ => "string"
  | VObject _ => "object"
  | VHttpServer _ => "object"
  | VFunction _ | VFetchArrow _ | VServerAdapter _
  | VListen _ | VNodeServerExtension _ => "function"
  end.

(** A run of [app.listen(...)] calls, one per argument list.  The calls
    are made one after the other, each on its own: a call that throws does
    not keep the later ones from being made.  The run collects the outcome
    of each call. *)
Fixpoint listen_each {answer : ListenAnswer} (app : value)
    (calls : list (list value)) (w : world) : list (result value) * world :=
  match calls with
  | [] => ([], w)
  | args :: rest =>
      let '(r, w') := call_method app "listen" args w in
      let '(rs, w'') := listen_each app rest w' in
      (r :: rs, w'')
  end.

(** What a computation gives, and the world it leaves. *)
Definition eval {R} (m : world -> R * world) (w : world) : R := fst (m w).
Definition exec {R} (m : world -> R * world) (w : world) : world := snd (m w).

(** The server that the extension creates around [app]'s fetch handler. *)
Definition adapter_of (app : value) : value := VServerAdapter (VFetchArrow app).

(** A small world for examples: one application object with a [fetch]
    method and a [name], and no server. *)
Definition demo_app : gmap string value :=
  <["fetch" := VFunction "Hoa.fetch"]> (<["name" := VString "hoa"]> ∅).

Definition demo_world : world := World (<[0 := demo_app]> ∅) [].

(** An application that already has a [listen] property. *)
Definition listening_app : gmap string value :=
  <["listen" := VString "previous"]> demo_app.

End NodeServer.

(** ** Using the module: several applications, and requests *)

Module Usage.
Import Js Host NodeServer.

(** The values that are not objects: assigning to a property of one of them
    throws in strict-mode code. *)
Definition is_primitive (v : value) : bool :=
  match v with
  | VUndefined | VNull | VBool _ | VNumber _ | VString _ => true
  | _ => false
  end.

(** A run of [listen] calls on several applications: each entry is the
    application object and the argument list of one [app.listen(...)].  As
    in [listen_each], every call is made, whatever the earlier ones gave. *)
Fixpoint listen_run {answer : ListenAnswer} (calls : list (loc * list value))
    (w : world) : list (result value) * world :=
  match calls with
  | [] => ([], w)
  | (l, args) :: rest =>
      let '(r, w') := call_method (VObject l) "listen" args w in
      let '(rs, w'') := listen_run rest w' in
      (r :: rs, w'')
  end.

(** The argument lists that a run passes to the [listen] of application
    [l], in call order. *)
Fixpoint calls_on (l : loc) (calls : list (loc * list value))
  : list (list value) :=
  match calls with
  | [] => []
  | (l', args) :: rest =>
      if Nat.eqb l' l then args :: calls_on l rest else calls_on l rest
  end.

Section Requests.

Context {answer : ListenAnswer}.

(** What a function defined outside the module does when it is called:
    [foreign name this args].  The application's [fetch] is such a
    function. *)
Variable foreign : string -> value -> list value -> M value.

(** Calling a function value with a receiver.  The arrow function of
    [nodeServerExtension], [request => app.fetch(request)], reads [fetch]
    from [app] when it is called and calls it as a method of [app] on its
    first parameter alone.  The other closures of the module run their
    bodies as in [call] and do not use [this].  The code of the server
    adapter is not interpreted.  A call inside a call takes one unit of
    [fuel]; [None] is a run that has used up its fuel. *)
Fixpoint apply_function (fuel : nat) (f this : value) (args : list value)
    (w : world) : option (result value * world) :=
  match fuel with
  | 0 => None
  | S fuel' =>
      match f with
      | VFunction name => Some (foreign name this args w)
      | VFetchArrow app =>
          let request := nth 0 args VUndefined in
          match get_property app "fetch" w with
          | (Ok fetch, w') => apply_function fuel' fetch app [request] w'
          | (Throw e, w') => Some (Throw e, w')
          end
      | VListen httpServer => Some (listen httpServer args w)
      | VNodeServerExtension options =>
          Some (nodeServerExtension options (nth 0 args VUndefined) w)
      | VServerAdapter _ => Some (Throw (ForeignCode "serverAdapter"), w)
      | _ => Some (Throw (TypeError "not a function"), w)
      end
  end.

End Requests.

(** A stand-in for the application's [fetch] in examples: it answers with
    its first argument and leaves the world as it is. *)
Definition echo (name : string) (this : value) (args : list value) : M value :=
  mret (nth 0 args VUndefined).

(** Two application objects, neither with a [listen]; the second has no
    [fetch] either. *)
Definition bare_app : gmap string value := <["name" := VString "bare"]> ∅.

Definition two_apps_world : world :=
  World (<[1 := bare_app]> (<[0 := demo_app]> ∅)) [].

End Usage.

(** ** JSON text *)

Module Json.
#[local] Set Warnings "-register-all".
Local Open Scope char_scope.

(** *** Characters and string literals *)

Definition quote : ascii := "034".
Definition backslash : ascii := "092".

Definition hex_digit (n : nat) : ascii :=
  nth n (list_ascii_of_string "0123456789abcdef") "0".

(** Inside a string literal the quote, the backslash and the control
    characters are escaped, the latter by their short form where there is
    one and as [\u00XX] otherwise. *)
Definition escape_char (c : ascii) : list ascii :=
  match c with
  | "034" => [backslash; quote]
  | "092" => [backslash; backslash]
  | "008" => [backslash; "b"]
  | "009" => [backslash; "t"]
  | "010" => [backslash; "n"]
  | "012" => [backslash; "f"]
  | "013" => [backslash; "r"]
  | _ =>
      let n := nat_of_ascii c in
      if Nat.ltb n 32
      then [backslash; "u"; "0"; "0"; hex_digit (n / 16); hex_digit (n mod 16)]
      else [c]
  end.

Definition encode_string (s : string) : list ascii :=
  quote :: flat_map escape_char (list_ascii_of_string s) ++ [quote].

Fixpoint join (sep : list ascii) (parts : list (list ascii)) : list ascii :=
  match parts with
  | [] => []
  | [p] => p
  | p :: rest => p ++ sep ++ join sep rest
  end.

Definition is_ws (c : ascii) : bool :=
  match c with
  | " " | "009" | "010" | "013" => true
  | _ => false
  end.

Fixpoint skip_ws (input : list ascii) : list ascii :=
  match input with
  | c :: rest => if is_ws c then skip_ws rest else input
  | [] => []
  end.

Definition is_digit (c : ascii) : bool :=
  match c with
  | "0" | "1" | "2" | "3" | "4" | "5" | "6" | "7" | "8" | "9" => true
  | _ => false
  end.

Fixpoint span_digits (input : list ascii) : list ascii * list ascii :=
  match input with
  | c :: rest =>
      if is_digit c
      then let '(ds, r) := span_digits rest in (c :: ds, r)
      else ([], input)
  | [] => ([], [])
  end.

(** The characters that a number is written with. *)
Definition is_number_char (c : ascii) : bool :=
  is_digit c || Ascii.eqb c "-" || Ascii.eqb c "+" || Ascii.eqb c "."
  || Ascii.eqb c "e" || Ascii.eqb c "E".

(** The longest run of number characters at the start of the input. *)
Fixpoint span_number (input : list ascii) : list ascii * list ascii :=
  match input with
  | c :: rest =>
      if is_number_char c
      then let '(tok, r) := span_number rest in (c :: tok, r)
      else ([], input)
  | [] => ([], [])
  end.

Definition hex_value (c : ascii) : option nat :=
  let n := nat_of_ascii c in
  if Nat.leb 48 n && Nat.leb n 57 then Some (n - 48)
  else if Nat.leb 97 n && Nat.leb n 102 then Some (n - 87)
  else if Nat.leb 65 n && Nat.leb n 70 then Some (n - 55)
  else None.

Definition hex4 (a b c d : ascii) : option N :=
  match hex_value a, hex_value b, hex_value c, hex_value d with
  | Some x, Some y, Some z, Some t =>
      Some (((N.of_nat x * 16 + N.of_nat y) * 16 + N.of_nat z) * 16
            + N.of_nat t)%N
  | _, _, _, _ => None
  end.

(** The UTF-8 bytes of a code point of the basic plane; a lone surrogate
    has none. *)
Definition utf8 (n : N) : option (list ascii) :=
  if (n <? 128)%N then Some [ascii_of_N n]
  else if (n <? 2048)%N
  then Some [ascii_of_N (192 + n / 64); ascii_of_N (128 + n mod 64)]
  else if ((55296 <=? n) && (n <? 57344))%N then None
  else Some [ascii_of_N (224 + n / 4096);
             ascii_of_N (128 + (n / 64) mod 64);
             ascii_of_N (128 + n mod 64)].

Definition unescape (c : ascii) : option ascii :=
  match c with
  | "034" => Some quote
  | "092" => Some backslash
  | "/" => Some "/"
  | "b" => Some "008"
  | "f" => Some "012"
  | "n" => Some "010"
  | "r" => Some "013"
  | "t" => Some "009"
  | _ => None
  end.

Definition prepend (cs : list ascii) (r : option (list ascii * list ascii))
  : option (list ascii * list ascii) :=
  match r with
  | Some (s, rest) => Some (cs ++ s, rest)
  | None => None
  end.

(** The characters of a string literal after its opening quote, up to and
    including the closing quote. *)
Fixpoint parse_string_body (input : list ascii)
  : option (list ascii * list ascii) :=
  match input with
  | [] => None
  | c :: rest =>
      if Ascii.eqb c quote then Some ([], rest)
      else if Ascii.eqb c backslash then
        match rest with
        | [] => None
        | e :: rest1 =>
            match unescape e with
            | Some x => prepend [x] (parse_string_body rest1)
            | None =>
                if Ascii.eqb e "u" then
                  match rest1 with
                  | h1 :: h2 :: h3 :: h4 :: rest2 =>
                      match hex4 h1 h2 h3 h4 with
                      | Some n =>
                          match utf8 n with
                          | Some bs => prepend bs (parse_string_body rest2)
                          | None => None
                          end
                      | None => None
                      end
                  | _ => None
                  end
                else None
            end
        end
      else if Nat.ltb (nat_of_ascii c) 32 then None
      else prepend [c] (parse_string_body rest)
  end.

Fixpoint strip_prefix (p input : list ascii) : option (list ascii) :=
  match p, input with
  | [], _ => Some input
  | a :: p', b :: input' => if Ascii.eqb a b then strip_prefix p' input' else None
  | _ :: _, [] => None
  end.

(** *** Numbers *)

(** Modelled from the spec: the numbers of the host and their JSON text.
    A number of the host is a floating-point value, and how the host writes
    one as text and reads one from text is floating-point arithmetic, which
    is not part of this development.  The values are therefore built over
    any type of numbers that comes with the two conversions. *)
Class JsonNumber (number : Type) : Type := {
  number_text : number -> list ascii;
  read_number : list ascii -> option number
}.

(** What is required of the conversions: the text of a number starts as a
    JSON number does, is made of number characters, and reads back as the
    number.  The host's conversions are specified to have the last property
    for every finite number. *)
Class JsonNumberLaws (number : Type) {codec : JsonNumber number} : Prop := {
  number_text_head :
    forall x : number,
      exists c tail,
        number_text x = c :: tail /\ (is_digit c = true \/ c = "-");
  number_text_chars :
    forall x : number,
      List.Forall (fun c => is_number_char c = true) (number_text x);
  read_number_text :
    forall x : number, read_number (number_text x) = Some x
}.

(** *** Values *)

Section Values.

Context {number : Type} {codec : JsonNumber number}.

(** Modelled from the spec: the structured values that are sent by JSON
    encoding.  The encoder belongs to the host and the parser to the
    receiving side; neither is part of the repository.  A value is a finite
    tree, so encoding cannot fail on a cycle.  Strings are byte strings,
    holding text as UTF-8.  An object lists its members in order. *)
Inductive json : Type :=
| JNull
| JBool (b : bool)
| JNumber (n : number)
| JString (s : string)
| JArray (items : list json)
| JObject (members : list (string * json)).

(** Modelled from the spec: JSON encoding, in the compact form that the
    host's serializer writes. *)
Fixpoint encode (v : json) : list ascii :=
  match v with
  | JNull => list_ascii_of_string "null"
  | JBool true => list_ascii_of_string "true"
  | JBool false => list_ascii_of_string "false"
  | JNumber n => number_text n
  | JString s => encode_string s
  | JArray items => "[" :: join [","] (map encode items) ++ ["]"]
  | JObject members =>
      "{" :: join [","]
               (map (fun m => encode_string (fst m) ++ ":" :: encode (snd m))
                    members)
          ++ ["}"]
  end.

Definition stringify (v : json) : string := string_of_list_ascii (encode v).

(** A number at the start of the input: the run of number characters there,
    read as a number. *)
Definition parse_number (input : list ascii) : option (number * list ascii) :=
  let '(tok, rest) := span_number input in
  match tok with
  | [] => None
  | _ :: _ =>
      match read_number tok with
      | Some x => Some (x, rest)
      | None => None
      end
  end.

Definition keyword (word : string) (v : json) (input : list ascii)
  : option (json * list ascii) :=
  match strip_prefix (list_ascii_of_string word) input with
  | Some rest => Some (v, rest)
  | None => None
  end.

Fixpoint parse_value (fuel : nat) (input : list ascii) {struct fuel}
  : option (json * list ascii) :=
  match fuel with
  | 0 => None
  | S fuel' =>
      match skip_ws input with
      | [] => None
      | c :: rest =>
          if Ascii.eqb c "n" then keyword "null" JNull (c :: rest)
          else if Ascii.eqb c "t" then keyword "true" (JBool true) (c :: rest)
          else if Ascii.eqb c "f" then keyword "false" (JBool false) (c :: rest)
          else if Ascii.eqb c quote then
            match parse_string_body rest with
            | Some (s, rest') => Some (JString (string_of_list_ascii s), rest')
            | None => None
            end
          else if Ascii.eqb c "[" then
            match skip_ws rest with
            | [] => None
            | c' :: rest' =>
                if Ascii.eqb c' "]" then Some (JArray [], rest')
                else
                  match parse_elements fuel' (c' :: rest') with
                  | Some (items, rest'') => Some (JArray items, rest'')
                  | None => None
                  end
            end
          else if Ascii.eqb c "{" then
            match skip_ws rest with
            | [] => None
            | c' :: rest' =>
                if Ascii.eqb c' "}" then Some (JObject [], rest')
                else
                  match parse_members fuel' (c' :: rest') with
                  | Some (members, rest'') => Some (JObject members, rest'')
                  | None => None
                  end
            end
          else
            match parse_number (c :: rest) with
            | Some (n, rest') => Some (JNumber n, rest')
            | None => None
            end
      end
  end

with parse_elements (fuel : nat) (input : list ascii) {struct fuel}
  : option (list json * list ascii) :=
  match fuel with
  | 0 => None
  | S fuel' =>
      match parse_value fuel' input with
      | Some (v, rest) =>
          match skip_ws rest with
          | [] => None
          | c :: rest' =>
              if Ascii.eqb c "," then
                match parse_elements fuel' rest' with
                | Some (vs, rest'') => Some (v :: vs, rest'')
                | None => None
                end
              else if Ascii.eqb c "]" then Some ([v], rest')
              else None
          end
      | None => None
      end
  end

with parse_members (fuel : nat) (input : list ascii) {struct fuel}
  : option (list (string * json) * list ascii) :=
  match fuel with
  | 0 => None
  | S fuel' =>
      match skip_ws input with
      | [] => None
      | q :: rest =>
          if Ascii.eqb q quote then
            match parse_string_body rest with
            | Some (k, rest1) =>
                match skip_ws rest1 with
                | [] => None
                | colon :: rest2 =>
                    if Ascii.eqb colon ":" then
                      match parse_value fuel' rest2 with
                      | Some (v, rest3) =>
                          match skip_ws rest3 with
                          | [] => None
                          | c :: rest4 =>
                              if Ascii.eqb c "," then
                                match parse_members fuel' rest4 with
                                | Some (ms, rest5) =>
                                    Some ((string_of_list_ascii k, v) :: ms, rest5)
                                | None => None
                                end
                              else if Ascii.eqb c "}"
                              then Some ([(string_of_list_ascii k, v)], rest4)
                              else None
                          end
                      | None => None
                      end
                    else None
                end
            | None => None
            end
          else None
      end
  end.

(** Modelled from the spec: reading a JSON text, as the receiving side does
    with the body.  The whole text must be one value, white space apart. *)
Definition parse (s : string) : option json :=
  let input := list_ascii_of_string s in
  match parse_value (S (length input)) input with
  | Some (v, rest) =>
      match skip_ws rest with
      | [] => Some v
      | _ :: _ => None
      end
  | None => None
  end.

(** *** Measures and predicates used in the proofs *)

Fixpoint json_size (v : json) : nat :=
  match v with
  | JArray items => S (list_sum (map (fun x => S (json_size x)) items))
  | JObject members => S (list_sum (map (fun m => S (json_size (snd m))) members))
  | _ => 1
  end.

Section JsonInduction.
Variable P : json -> Prop.
Hypothesis Hnull : P JNull.
Hypothesis Hbool : forall b, P (JBool b).
Hypothesis Hnumber : forall n, P (JNumber n).
Hypothesis Hstring : forall s, P (JString s).
Hypothesis Harray : forall items, Forall P items -> P (JArray items).
Hypothesis Hobject :
  forall members, Forall (fun m => P (snd m)) members -> P (JObject members).

Fixpoint json_nested_ind (v : json) : P v :=
  match v with
  | JNull => Hnull
  | JBool b => Hbool b
  | JNumber n => Hnumber n
  | JString s => Hstring s
  | JArray items =>
      Harray items
        ((fix all (l : list json) : Forall P l :=
            match l with
            | [] => List.Forall_nil P
            | x :: r => List.Forall_cons P x r (json_nested_ind x) (all r)
            end) items)
  | JObject members =>
      Hobject members
        ((fix all (l : list (string * json)) : Forall (fun m => P (snd m)) l :=
            match l with
            | [] => List.Forall_nil _
            | m :: r => List.Forall_cons _ m r (json_nested_ind (snd m)) (all r)
            end) members)
  end.
End JsonInduction.

(** Where a value may end: before the end of the input or a character that
    cannot continue a number. *)
Definition delimited (rest : list ascii) : Prop :=
  match rest with
  | [] => True
  | c :: _ => is_number_char c = false
  end.

(** The first character of an encoded value. *)
Definition value_start (c : ascii) : bool :=
  is_digit c || Ascii.eqb c "-" || Ascii.eqb c "n" || Ascii.eqb c "t"
  || Ascii.eqb c "f" || Ascii.eqb c quote || Ascii.eqb c "[" || Ascii.eqb c "{".

(** The property proved by induction on the value: the parser reads back an
    encoded value and stops right after it. *)
Definition reads_back (v : json) : Prop :=
  forall (fuel : nat) (rest : list ascii),
    json_size v <= fuel ->
    delimited rest ->
    parse_value fuel (encode v ++ rest) = Some (v, rest).

Definition elements_size (items : list json) : nat :=
  list_sum (map (fun x => S (json_size x)) items).

Definition members_size (members : list (string * json)) : nat :=
  list_sum (map (fun m => S (json_size (snd m))) members).

End Values.

Arguments json number : clear implicits.
Arguments JNull {number}.
Arguments JBool {number} b.
Arguments JNumber {number} n.
Arguments JString {number} s.
Arguments JArray {number} items.
Arguments JObject {number} members.

(** *** The integers as numbers *)

(** A JSON integer literal: an optional minus sign and a non-empty run of
    digits that has no superfluous leading zero. *)
Definition well_formed_digits (ds : list ascii) : bool :=
  match ds with
  | [] => false
  | c :: tail =>
      match tail with
      | [] => true
      | _ :: _ => negb (Ascii.eqb c "0")
      end
  end.

Definition integer_text (n : Z) : list ascii :=
  list_ascii_of_string (NilZero.string_of_int (Z.to_int n)).

Definition read_integer (tok : list ascii) : option Z :=
  let unsigned :=
    match tok with
    | c :: r => if Ascii.eqb c "-" then r else tok
    | [] => tok
    end in
  if well_formed_digits unsigned then
    match NilZero.int_of_string (string_of_list_ascii tok) with
    | Some d => Some (Z.of_int d)
    | None => None
    end
  else None.

(** The integers, written in decimal. *)
#[global] Instance integer_numbers : JsonNumber Z := {|
  number_text := integer_text;
  read_number := read_integer
|}.

Definition digits (u : Decimal.uint) : list ascii :=
  list_ascii_of_string (NilEmpty.string_of_uint u).

(** *** Number literals as numbers *)

(** One digit or more at the start of the input; what follows them. *)
Definition after_digits (input : list ascii) : option (list ascii) :=
  match span_digits input with
  | ([], _) => None
  | (_ :: _, rest) => Some rest
  end.

(** The grammar of a JSON number: an optional minus sign, an integer part
    without a superfluous leading zero, an optional fraction, an optional
    exponent. *)
Definition number_grammar (t : list ascii) : bool :=
  let unsigned :=
    match t with
    | c :: r => if Ascii.eqb c "-" then r else t
    | [] => t
    end in
  let '(int_part, after_int) := span_digits unsigned in
  well_formed_digits int_part
  && match
       match after_int with
       | c :: r => if Ascii.eqb c "." then after_digits r else Some after_int
       | [] => Some []
       end
     with
     | None => false
     | Some [] => true
     | Some (c :: r) =>
         if Ascii.eqb c "e" || Ascii.eqb c "E" then
           match
             after_digits
               match r with
               | sign :: r' =>
                   if Ascii.eqb sign "+" || Ascii.eqb sign "-" then r' else r
               | [] => r
               end
           with
           | Some [] => true
           | _ => false
           end
         else false
     end.

Definition is_number_literal (t : list ascii) : bool :=
  forallb is_number_char t && number_grammar t.

(** A number given by the literal that stands for it in a JSON text, such
    as [-0.5] or [1e+21]. *)
Record number_literal : Type := NumberLiteral {
  literal_text : list ascii;
  literal_ok : is_number_literal literal_text = true
}.

Definition read_literal (tok : list ascii) : option number_literal :=
  match Sumbool.sumbool_of_bool (is_number_literal tok) with
  | left ok => Some (NumberLiteral tok ok)
  | right _ => None
  end.

#[global] Instance literal_numbers : JsonNumber number_literal := {|
  number_text := literal_text;
  read_number := read_literal
|}.

Definition literal_of (text : string)
    (ok : is_number_literal (list_ascii_of_string text) = true)
  : number_literal :=
  NumberLiteral (list_ascii_of_string text) ok.

End Json.




(** ** Response headers *)

Module Http.
Local Open Scope char_scope.

Definition lower_char (c : ascii) : ascii :=
  let n := nat_of_ascii c in
  if Nat.leb 65 n && Nat.leb n 90 then ascii_of_nat (n + 32) else c.

Fixpoint lower (s : string) : string :=
  match s with
  | EmptyString => EmptyString
  | String c rest => String (lower_char c) (lower rest)
  end.

(** Header names are compared without regard to case. *)
Definition same_name (a b : string) : bool := String.eqb (lower a) (lower b).

(** Modelled from the spec: the headers of a Response Descriptor, an
    ordered mapping from header names to values: entries stay in the
    order in which their names were first set. *)
Definition headers : Type := list (string * string).

Fixpoint header_get (name : string) (h : headers) : option string :=
  match h with
  | [] => None
  | (k, v) :: rest => if same_name k name then Some v else header_get name rest
  end.

Definition header_has (name : string) (h : headers) : bool :=
  match header_get name h with
  | Some _ => true
  | None => false
  end.

Fixpoint header_set (name value : string) (h : headers) : headers :=
  match h with
  | [] => [(name, value)]
  | (k, v) :: rest =>
      if same_name k name then (k, value) :: rest
      else (k, v) :: header_set name value rest
  end.

(** Every value that a name has, in order: a header collection may carry a
    name more than once, as a response does with [Set-Cookie]. *)
Fixpoint header_get_all (name : string) (h : headers) : list string :=
  match h with
  | [] => []
  | (k, v) :: rest =>
      if same_name k name then v :: header_get_all name rest
      else header_get_all name rest
  end.

(** Modelled from the spec: [over] merged over [base].  The entries of
    [over] are adopted as they are, a repeated name with each of its
    values; of [base] the entries stay whose name [over] does not have, so
    [over] wins where both have a name. *)
Definition header_merge (base over : headers) : headers :=
  List.filter (fun kv => negb (header_has (fst kv) over)) base ++ over.

(** Fill in a header only where it is absent. *)
Definition header_default (name value : string) (h : headers) : headers :=
  if header_has name h then h else header_set name value h.

(** Substring test, as used on header values. *)
Fixpoint contains (needle hay : string) : bool :=
  if String.prefix needle hay then true
  else match hay with
       | EmptyString => false
       | String _ rest => contains needle rest
       end.

End Http.

(** ** Response bodies and their normalisation *)

Module Body.
Import Http Json.

Definition bytes : Type := list Byte.byte.

(** What one read of a byte stream gives. *)
Inductive pull_result : Type :=
| Chunk (data : bytes)
| Done
| Failed.

(** A byte stream is consumed by successive reads; the stream is given by
    what its [n]-th read answers.  It need not ever answer [Done]. *)
Definition byte_stream : Type := nat -> pull_result.

(** The stream that produces the given chunks and then completes. *)
Definition stream_of (chunks : list bytes) : byte_stream :=
  fun n =>
    match nth_error chunks n with
    | Some data => Chunk data
    | None => Done
    end.

Inductive form_field : Type :=
| FieldText (name value : string)
| FieldFile (name : string) (filename : option string) (media_type : string)
            (content : bytes).

Inductive foreign_body : Type :=
| ForeignBuffer (data : bytes)
| ForeignStream (source : byte_stream).

Record foreign_response : Type := ForeignResponse {
  f_status : Z;
  f_headers : headers;
  f_body : foreign_body
}.

(** Modelled from the spec: the Body Value, the value a handler assigned
    as the response body, as a tagged union with one variant per kind. *)
Inductive body_value (number : Type) : Type :=
| BNull
| BAbsent
| BText (text : string)
| BBuffer (data : bytes)
| BView (buffer : bytes) (byteOffset byteLength : nat)
| BStream (source : byte_stream)
| BStructured (value : json number)
| BFormData (fields : list form_field)
| BUrlEncoded (pairs : list (string * string))
| BForeign (response : foreign_response).

Arguments BNull {number}.
Arguments BAbsent {number}.
Arguments BText {number} text.
Arguments BBuffer {number} data.
Arguments BView {number} buffer byteOffset byteLength.
Arguments BStream {number} source.
Arguments BStructured {number} value.
Arguments BFormData {number} fields.
Arguments BUrlEncoded {number} pairs.
Arguments BForeign {number} response.

(** Modelled from the spec: the Response Descriptor. *)
Record descriptor (number : Type) : Type := Descriptor {
  status : Z;
  headers_of : headers;
  body : body_value number
}.

Arguments Descriptor {number} status headers_of body.
Arguments status {number} d.
Arguments headers_of {number} d.
Arguments body {number} d.

(** The status of a descriptor on which none has been set. *)
Definition default_status : Z := 200.

(** A descriptor at the start of a request: the default status, no header,
    no body. *)
Definition fresh {number : Type} : descriptor number :=
  Descriptor default_status [] BAbsent.

Definition set_status {number : Type} (s : Z) (d : descriptor number)
  : descriptor number :=
  Descriptor s (headers_of d) (body d).

Definition set_header {number : Type} (name value : string)
    (d : descriptor number) : descriptor number :=
  Descriptor (status d) (header_set name value (headers_of d)) (body d).

Definition set_body {number : Type} (b : body_value number)
    (d : descriptor number) : descriptor number :=
  Descriptor (status d) (headers_of d) b.

(** *** Encoders *)

Definition utf8_bytes (s : string) : bytes := list_byte_of_string s.

Definition dquote : string := String "034" EmptyString.
Definition crlf : string := String "013" (String "010" EmptyString).

Definition upper_hex_digit (n : nat) : ascii :=
  nth n (list_ascii_of_string "0123456789ABCDEF") "0"%char.

Definition url_unreserved (c : ascii) : bool :=
  let n := nat_of_ascii c in
  (Nat.leb 48 n && Nat.leb n 57) || (Nat.leb 65 n && Nat.leb n 90)
  || (Nat.leb 97 n && Nat.leb n 122)
  || Ascii.eqb c "*" || Ascii.eqb c "-" || Ascii.eqb c "." || Ascii.eqb c "_".

Definition percent_encode_char (c : ascii) : string :=
  if url_unreserved c then String c EmptyString
  else if Ascii.eqb c " " then "+"
  else
    let n := nat_of_ascii c in
    String "%" (String (upper_hex_digit (n / 16))
                  (String (upper_hex_digit (n mod 16)) EmptyString)).

Fixpoint percent_encode (s : string) : string :=
  match s with
  | EmptyString => EmptyString
  | String c rest => percent_encode_char c +:+ percent_encode rest
  end.

(** [key=value] pairs joined by [&], names and values percent-encoded. *)
Definition url_encode (pairs : list (string * string)) : string :=
  String.concat "&"
    (map (fun kv => percent_encode (fst kv) +:+ "=" +:+ percent_encode (snd kv))
         pairs).

(** One part of a multipart body. *)
Definition multipart_part (boundary : string) (f : form_field) : bytes :=
  match f with
  | FieldText name value =>
      utf8_bytes
        ("--" +:+ boundary +:+ crlf
         +:+ "Content-Disposition: form-data; name=" +:+ dquote +:+ name
         +:+ dquote +:+ crlf +:+ crlf +:+ value +:+ crlf)
  | FieldFile name filename media_type content =>
      utf8_bytes
        ("--" +:+ boundary +:+ crlf
         +:+ "Content-Disposition: form-data; name=" +:+ dquote +:+ name
         +:+ dquote
         +:+ match filename with
             | Some f => "; filename=" +:+ dquote +:+ f +:+ dquote
             | None => ""
             end
         +:+ crlf +:+ "Content-Type: " +:+ media_type +:+ crlf +:+ crlf)
      ++ content ++ utf8_bytes crlf
  end.

Definition multipart (boundary : string) (fields : list form_field) : bytes :=
  concat (map (multipart_part boundary) fields)
  ++ utf8_bytes ("--" +:+ boundary +:+ "--" +:+ crlf).

(** The bytes a binary view designates in its buffer. *)
Definition view_range (buffer : bytes) (byteOffset byteLength : nat) : bytes :=
  firstn byteLength (skipn byteOffset buffer).

(** *** The normalised response *)

(** The transmission mode, with what is to be sent. *)
Inductive payload : Type :=
| NoBody
| Buffered (data : bytes)
| Streamed (source : byte_stream).

Record response : Type := Response {
  r_status : Z;
  r_headers : headers;
  r_payload : payload
}.

Definition foreign_payload (b : foreign_body) : payload :=
  match b with
  | ForeignBuffer data => Buffered data
  | ForeignStream source => Streamed source
  end.

Section Normalizer.

Context {number : Type} {codec : JsonNumber number}.

(** The boundary that the multipart encoder chooses. *)
Variable boundary : string.

(** Modelled from the spec: the Body Normalizer, which lives in the
    application framework that the tests import and not in this
    repository.  The cases are tried in the specification's order, and the
    first that matches decides status, headers and transmission mode. *)
Definition normalize (d : descriptor number) : response :=
  match body d with
  | BForeign r =>
      Response (f_status r) (header_merge (headers_of d) (f_headers r))
               (foreign_payload (f_body r))
  | BNull | BAbsent =>
      Response (status d) (headers_of d) NoBody
  | BStream source =>
      Response (status d) (headers_of d) (Streamed source)
  | BBuffer data =>
      Response (status d) (headers_of d) (Buffered data)
  | BView buffer byteOffset byteLength =>
      Response (status d) (headers_of d)
               (Buffered (view_range buffer byteOffset byteLength))
  | BFormData fields =>
      Response (status d)
               (header_default "Content-Type"
                  ("multipart/form-data; boundary=" +:+ boundary)
                  (headers_of d))
               (Buffered (multipart boundary fields))
  | BUrlEncoded pairs =>
      Response (status d)
               (header_default "Content-Type"
                  "application/x-www-form-urlencoded" (headers_of d))
               (Buffered (utf8_bytes (url_encode pairs)))
  | BText text =>
      Response (status d) (headers_of d) (Buffered (utf8_bytes text))
  | BStructured value =>
      Response (status d)
               (header_default "Content-Type"
                  "application/json; charset=utf-8" (headers_of d))
               (Buffered (utf8_bytes (stringify value)))
  end.

End Normalizer.

(** *** Transmission *)

(** What the connection sees, in order. *)
Inductive conn_event : Type :=
| WriteHead (status : Z) (h : headers)
| Write (data : bytes)
| End_
| Abort.

(** Modelled from the spec: the streaming mode.  Chunks are pulled one after
    the other and each is written before the next is pulled; completion ends
    the response and a read error aborts the connection.  [reads] bounds the
    number of reads performed, since a stream may go on for ever. *)
Fixpoint pump (reads : nat) (source : byte_stream) (next : nat)
  : list conn_event :=
  match reads with
  | 0 => []
  | S reads' =>
      match source next with
      | Chunk data => Write data :: pump reads' source (S next)
      | Done => [End_]
      | Failed => [Abort]
      end
  end.

(** Modelled from the spec: the status that goes out.  For a response
    without a body whose status is the default 200, the specification
    leaves it to the host layer whether 200 or 204 is sent; [no_content]
    says which the host does.  Any other status goes out as it is. *)
Definition sent_status (no_content : bool) (r : response) : Z :=
  match r_payload r with
  | NoBody =>
      if no_content && Z.eqb (r_status r) 200 then 204%Z else r_status r
  | _ => r_status r
  end.

(** Modelled from the spec: writing a normalised response to the
    connection: the head, then nothing, one buffered write, or the stream. *)
Definition transmit (no_content : bool) (reads : nat) (r : response)
  : list conn_event :=
  WriteHead (sent_status no_content r) (r_headers r)
  :: match r_payload r with
     | NoBody => [End_]
     | Buffered data => [Write data; End_]
     | Streamed source => pump reads source 0
     end.

(** The chunks written to the connection, in order, and the body bytes the
    peer receives. *)
Fixpoint written (trace : list conn_event) : list bytes :=
  match trace with
  | [] => []
  | Write data :: rest => data :: written rest
  | _ :: rest => written rest
  end.

Definition received (trace : list conn_event) : bytes := concat (written trace).

(** The status that the connection has been sent, if any. *)
Definition head_status (trace : list conn_event) : option Z :=
  match trace with
  | WriteHead st _ :: _ => Some st
  | _ => None
  end.

Definition respond {number : Type} {codec : JsonNumber number}
    (no_content : bool) (boundary : string) (reads : nat)
    (d : descriptor number) : list conn_event :=
  transmit no_content reads (normalize boundary d).

(** The [Content-Type] that a foreign response brings along, if any. *)
Definition foreign_content_type {number : Type} (b : body_value number)
  : option string :=
  match b with
  | BForeign r => header_get "Content-Type" (f_headers r)
  | _ => None
  end.

(** *** Example descriptors *)

(** The foreign response of the test suite: status 201, a content type and
    a custom header. *)
Definition created_response : foreign_response :=
  ForeignResponse 201 [("content-type", "text/plain"); ("X-Foo", "foo")]
    (ForeignStream (stream_of [utf8_bytes "response body"])).

(** A foreign response that sets two cookies. *)
Definition cookie_response : foreign_response :=
  ForeignResponse 200 [("Set-Cookie", "a=1"); ("set-cookie", "b=2")]
    (ForeignBuffer []).

(** A descriptor with an explicit [Content-Type] whose body is that foreign
    response. *)
Definition html_over_foreign {number : Type} : descriptor number :=
  Descriptor 200 [("Content-Type", "text/html")] (BForeign created_response).

(** The structured value of the test suite, [{ a: 1, b: '2' }]. *)
Definition sample_object : json Z :=
  JObject [("a", JNumber 1%Z); ("b", JString "2")].

(** A structured value with numbers that are no integers. *)
Definition sample_measures : json number_literal :=
  JObject [("ratio", JNumber (literal_of "1.5" eq_refl));
           ("limit", JNumber (literal_of "1e+21" eq_refl));
           ("count", JArray [JNumber (literal_of "-3" eq_refl)])].

End Body.

(** * Properties of the transport binder *)

Module NodeServerFacts.
Import Js Host NodeServer.

Section AnyHost.

Context {answer : ListenAnswer}.

Lemma bind_unfold {A B} (m : M A) (k : A -> M B) (w : world) :
  (m ≫= k) w = match m w with
                | (Ok a, w') => k a w'
                | (Throw e, w') => (Throw e, w')
                end.
Proof. reflexivity. Qed.

(** Running the extension on an object of the store. *)
Lemma extension_on_object (options : value) (l : loc) (o : gmap string value)
    (w : world) :
  heap w !! l = Some o ->
  nodeServerExtension options (VObject l) w =
    (Ok VUndefined,
     World (<[l := <["listen" := VListen (VHttpServer (length (servers w)))]> o]>
              (heap w))
           (servers w ++ [HttpServer (adapter_of (VObject l)) []])).
Proof.
  intros Hl. unfold nodeServerExtension.
  rewrite bind_unfold. unfold createServerAdapter, mret, M_ret, ret.
  rewrite bind_unfold. unfold createServer.
  rewrite bind_unfold. unfold set_property, with_servers, with_heap. cbn.
  rewrite Hl. reflexivity.
Qed.

(** One [app.listen(...)] call in a world where the method is the closure
    over server [n]: the outcome is the host's answer, and the server has
    received the arguments. *)
Lemma listen_method_call (l : loc) (o : gmap string value) (n : nat)
    (s : http_server) (w : world) (args : list value) :
  heap w !! l = Some o ->
  o !! "listen" = Some (VListen (VHttpServer n)) ->
  servers w !! n = Some s ->
  call_method (VObject l) "listen" args w =
    (listen_answer (servers w) n args,
     with_servers
       (<[n := HttpServer (request_listener s) (listen_calls s ++ [args])]>
          (servers w)) w).
Proof.
  intros Hl Ho Hs. unfold call_method. rewrite bind_unfold.
  unfold get_property. rewrite Hl, Ho. cbn.
  unfold listen, server_listen. rewrite Hs. reflexivity.
Qed.

Lemma exec_listen_each_cons (app : value) (args : list value)
    (rest : list (list value)) (w : world) :
  exec (listen_each app (args :: rest)) w
  = exec (listen_each app rest) (exec (call_method app "listen" args) w).
Proof.
  unfold exec. cbn [listen_each].
  destruct (call_method app "listen" args w) as [r w']. cbn [snd].
  destruct (listen_each app rest w') as [rs w'']. reflexivity.
Qed.

(** A run of [app.listen(...)] calls: the server's log grows by the
    argument lists in call order, and nothing else changes. *)
Lemma listen_each_run (l : loc) (o : gmap string value) (n : nat)
    (calls : list (list value)) :
  forall (s : http_server) (w : world),
    heap w !! l = Some o ->
    o !! "listen" = Some (VListen (VHttpServer n)) ->
    servers w !! n = Some s ->
    exec (listen_each (VObject l) calls) w
    = with_servers
        (<[n := HttpServer (request_listener s) (listen_calls s ++ calls)]>
           (servers w)) w.
Proof.
  induction calls as [|args rest IH]; intros s w Hl Ho Hs.
  - unfold exec. cbn. unfold with_servers. rewrite app_nil_r.
    destruct s as [rl lc]; cbn. rewrite list_insert_id by exact Hs.
    destruct w; reflexivity.
  - rewrite exec_listen_each_cons. unfold exec at 2.
    rewrite (listen_method_call l o n s w args Hl Ho Hs). cbn [snd].
    assert (Hlt : n < length (servers w)) by (eapply lookup_lt_Some; eauto).
    rewrite (IH (HttpServer (request_listener s) (listen_calls s ++ [args]))).
    + cbn. unfold with_servers; cbn. rewrite list_insert_insert_eq.
      rewrite <- app_assoc. reflexivity.
    + exact Hl.
    + exact Ho.
    + cbn. apply list_lookup_insert_eq. exact Hlt.
Qed.

Lemma call_extension_on_object (options : value) (l : loc)
    (o : gmap string value) (w : world) :
  heap w !! l = Some o ->
  call (nodeServer options) [VObject l] w =
    (Ok VUndefined,
     World (<[l := <["listen" := VListen (VHttpServer (length (servers w)))]> o]>
              (heap w))
           (servers w ++ [HttpServer (adapter_of (VObject l)) []])).
Proof. intros Hl. unfold nodeServer. cbn. apply extension_on_object, Hl. Qed.

(** C1.  After the extension has been applied to an application object,
    and after any earlier [listen] calls, [app.listen(...listenArgs)] is the
    underlying server's own listen operation on the same argument list: the
    server that was created at extension time receives [listenArgs]
    unchanged as its latest call, and what it answers is the outcome of the
    call.  So the call returns that server's handle whenever the host
    answers the request with the handle. *)
Theorem listen_forwards_all_arguments (options : value) (l : loc)
    (o : gmap string value) (w : world)
    (earlier : list (list value)) (listenArgs : list value) :
  heap w !! l = Some o ->
  let app := VObject l in
  let httpServer := VHttpServer (length (servers w)) in
  let w0 := exec (call (nodeServer options) [app]) w in
  let w1 := exec (listen_each app earlier) w0 in
  call_method app "listen" listenArgs w1 = server_listen httpServer listenArgs w1
  /\ eval (call_method app "listen" listenArgs) w1
     = listen_answer (servers w1) (length (servers w)) listenArgs
  /\ servers (exec (call_method app "listen" listenArgs) w1) !! length (servers w)
     = Some (HttpServer (adapter_of app) (earlier ++ [listenArgs]))
  /\ (listen_answer (servers w1) (length (servers w)) listenArgs = Ok httpServer ->
      eval (call_method app "listen" listenArgs) w1 = Ok httpServer).
Proof.
  intros Hl app httpServer w0 w1.
  set (n := length (servers w)).
  set (o' := <["listen" := VListen (VHttpServer n)]> o).
  assert (Hw0 : w0 = World (<[l := o']> (heap w))
                       (servers w ++ [HttpServer (adapter_of app) []])).
  { unfold w0, exec, app.
    rewrite (call_extension_on_object options l o w Hl). reflexivity. }
  assert (Hl0 : heap w0 !! l = Some o') by (rewrite Hw0; apply lookup_insert_eq).
  assert (Ho' : o' !! "listen" = Some (VListen (VHttpServer n)))
    by apply lookup_insert_eq.
  assert (Hs0 : servers w0 !! n = Some (HttpServer (adapter_of app) [])).
  { rewrite Hw0. cbn. rewrite lookup_app_r by (unfold n; lia).
    replace (n - length (servers w)) with 0 by (unfold n; lia). reflexivity. }
  assert (Hw1 : w1 = with_servers
                       (<[n := HttpServer (adapter_of app) earlier]> (servers w0)) w0).
  { unfold w1, app.
    rewrite (listen_each_run l o' n earlier _ w0 Hl0 Ho' Hs0). reflexivity. }
  assert (Hn : n < length (servers w0)) by (eapply lookup_lt_Some; eauto).
  assert (Hl1 : heap w1 !! l = Some o') by (rewrite Hw1; exact Hl0).
  assert (Hs1 : servers w1 !! n = Some (HttpServer (adapter_of app) earlier)).
  { rewrite Hw1. cbn. apply list_lookup_insert_eq, Hn. }
  pose proof (listen_method_call l o' n _ w1 listenArgs Hl1 Ho' Hs1) as Hcall.
  fold app in Hcall.
  assert (Heval : eval (call_method app "listen" listenArgs) w1
                  = listen_answer (servers w1) n listenArgs).
  { unfold eval. rewrite Hcall. reflexivity. }
  split; [|split; [|split]].
  - rewrite Hcall. unfold server_listen, httpServer. fold n. rewrite Hs1.
    reflexivity.
  - exact Heval.
  - unfold exec. rewrite Hcall. cbn. fold n.
    apply list_lookup_insert_eq. rewrite Hw1. cbn. rewrite length_insert.
    exact Hn.
  - intros Hanswer. rewrite Heval. exact Hanswer.
Qed.

(** C2.  [nodeServer(options)] is a function for every [options]; applied
    to an application object it installs a function as the object's [listen]
    property and returns [undefined]; and whatever it is applied to, the
    outcome and the resulting world are the same for any two [options]. *)
Theorem options_do_not_interfere (options1 options2 : value) (l : loc)
    (o : gmap string value) (w : world) :
  heap w !! l = Some o ->
  typeof (nodeServer options1) = "function"
  /\ eval (call (nodeServer options1) [VObject l]) w = Ok VUndefined
  /\ (exists f,
        eval (get_property (VObject l) "listen")
             (exec (call (nodeServer options1) [VObject l]) w) = Ok f
        /\ typeof f = "function")
  /\ (forall app : value,
        call (nodeServer options1) [app] w = call (nodeServer options2) [app] w).
Proof.
  intros Hl. split; [reflexivity|]. split; [|split].
  - unfold eval. rewrite (call_extension_on_object options1 l o w Hl).
    reflexivity.
  - exists (VListen (VHttpServer (length (servers w)))). split; [|reflexivity].
    unfold eval, exec.
    rewrite (call_extension_on_object options1 l o w Hl). cbn.
    unfold get_property. cbn. rewrite lookup_insert_eq, lookup_insert_eq.
    reflexivity.
  - intros app. reflexivity.
Qed.

(** C3.  One application of the extension to an application object adds
    exactly one server to the host, created around the request adapter of
    the application's fetch handler; every later [app.listen(...)] call is
    received by that server, and no further server appears.  The installed
    function is closed over that server: called in any world, it is that
    server's listen operation. *)
Theorem one_server_per_extension (options : value) (l : loc)
    (o : gmap string value) (w : world) (calls : list (list value)) :
  heap w !! l = Some o ->
  let app := VObject l in
  let w0 := exec (call (nodeServer options) [app]) w in
  servers w0 = servers w ++ [HttpServer (adapter_of app) []]
  /\ servers (exec (listen_each app calls) w0)
     = servers w ++ [HttpServer (adapter_of app) calls]
  /\ (exists installed,
        eval (get_property app "listen") w0 = Ok installed
        /\ forall (w' : world) (args : list value),
             call installed args w'
             = server_listen (VHttpServer (length (servers w))) args w').
Proof.
  intros Hl app w0.
  set (n := length (servers w)).
  set (o' := <["listen" := VListen (VHttpServer n)]> o).
  assert (Hw0 : w0 = World (<[l := o']> (heap w))
                       (servers w ++ [HttpServer (adapter_of app) []])).
  { unfold w0, exec, app.
    rewrite (call_extension_on_object options l o w Hl). reflexivity. }
  assert (Hl0 : heap w0 !! l = Some o') by (rewrite Hw0; apply lookup_insert_eq).
  assert (Ho' : o' !! "listen" = Some (VListen (VHttpServer n)))
    by apply lookup_insert_eq.
  assert (Hs0 : servers w0 !! n = Some (HttpServer (adapter_of app) [])).
  { rewrite Hw0. cbn. rewrite lookup_app_r by (unfold n; lia).
    replace (n - length (servers w)) with 0 by (unfold n; lia). reflexivity. }
  pose proof (listen_each_run l o' n calls _ w0 Hl0 Ho' Hs0) as Hrun.
  fold app in Hrun.
  split; [|split].
  - rewrite Hw0. reflexivity.
  - rewrite Hrun. cbn. rewrite Hw0. cbn.
    rewrite insert_app_r_alt by (unfold n; lia).
    replace (n - length (servers w)) with 0 by (unfold n; lia). reflexivity.
  - exists (VListen (VHttpServer n)). split; [|reflexivity].
    unfold eval, get_property, app. rewrite Hl0, Ho'. reflexivity.
Qed.


End AnyHost.

(** *** On the example hosts *)

Section StrictHost.

#[local] Existing Instance strict_host.

(** The extension applied to something that is no object: the server has
    been created by the time the assignment throws. *)
Example extension_on_undefined :
  call (nodeServer VUndefined) [] demo_world
  = (Throw (TypeError "Cannot set properties of a primitive"),
     World (heap demo_world) [HttpServer (adapter_of VUndefined) []]).
Proof. reflexivity. Qed.

(** The test "invokes listen callback once": [listen(0, 'localhost', cb)]
    hands the three arguments to the server and returns its handle. *)
Example listen_with_callback :
  call_method (VObject 0) "listen"
    [VNumber 0; VString "localhost"; VFunction "callbackSpy"]
    (exec (call (nodeServer VUndefined) [VObject 0]) demo_world)
  = (Ok (VHttpServer 0),
     World (<[0 := <["listen" := VListen (VHttpServer 0)]> demo_app]> ∅)
       [HttpServer (adapter_of (VObject 0))
          [[VNumber 0; VString "localhost"; VFunction "callbackSpy"]]]).
Proof. reflexivity. Qed.

(** On a host that rejects a repeated request, the second call throws what
    the host throws; the server has been asked twice. *)
Example listen_twice_on_strict_host :
  listen_each (VObject 0) [[VNumber 3000]; [VNumber 3001]]
    (exec (call (nodeServer VUndefined) [VObject 0]) demo_world)
  = ([Ok (VHttpServer 0); Throw (ForeignCode "ERR_SERVER_ALREADY_LISTEN")],
     World (<[0 := <["listen" := VListen (VHttpServer 0)]> demo_app]> ∅)
       [HttpServer (adapter_of (VObject 0)) [[VNumber 3000]; [VNumber 3001]]]).
Proof. reflexivity. Qed.

Lemma listen_forwards_all_arguments_witness :
  heap demo_world !! 0 = Some demo_app
  /\ eval (call_method (VObject 0) "listen"
             [VNumber 0; VString "localhost"; VFunction "callbackSpy"])
          (exec (listen_each (VObject 0) [])
             (exec (call (nodeServer VUndefined) [VObject 0]) demo_world))
     = Ok (VHttpServer 0).
Proof.
  split; [reflexivity|].
  apply (listen_forwards_all_arguments VUndefined 0 demo_app demo_world []
           [VNumber 0; VString "localhost"; VFunction "callbackSpy"]);
    reflexivity.
Defined.

Lemma options_do_not_interfere_witness :
  heap demo_world !! 0 = Some demo_app
  /\ call (nodeServer (VString "a")) [VObject 0] demo_world
     = call (nodeServer (VNumber 7)) [VObject 0] demo_world.
Proof.
  split; [reflexivity|].
  apply (options_do_not_interfere (VString "a") (VNumber 7) 0 demo_app demo_world).
  reflexivity.
Defined.

Lemma one_server_per_extension_witness :
  heap demo_world !! 0 = Some demo_app
  /\ servers (exec (listen_each (VObject 0) [[VNumber 3000]; [VNumber 3001]])
                (exec (call (nodeServer VUndefined) [VObject 0]) demo_world))
     = [HttpServer (adapter_of (VObject 0)) [[VNumber 3000]; [VNumber 3001]]].
Proof.
  split; [reflexivity|].
  apply (one_server_per_extension VUndefined 0 demo_app demo_world
           [[VNumber 3000]; [VNumber 3001]]).
  reflexivity.
Defined.


End StrictHost.

End NodeServerFacts.

(** * Properties of the JSON codec *)

Module JsonFacts.
Import Json.
Local Open Scope char_scope.

(** *** Strings *)

(** A case for each of the 256 characters; a case that a hypothesis rules
    out goes by [discriminate], the others by computation. *)
Ltac by_cases_on_char c :=
  destruct c as [[|] [|] [|] [|] [|] [|] [|] [|]];
  try discriminate; try reflexivity.

(** Reading an escaped character gives the character. *)
Lemma parse_string_body_escape (c : ascii) (rest : list ascii) :
  parse_string_body (escape_char c ++ rest)
  = prepend [c] (parse_string_body rest).
Proof. by_cases_on_char c. Qed.

Lemma parse_string_body_encode (s rest : list ascii) :
  parse_string_body (flat_map escape_char s ++ quote :: rest) = Some (s, rest).
Proof.
  induction s as [|c s IH]; [reflexivity|].
  cbn [flat_map]. rewrite <- app_assoc, parse_string_body_escape, IH.
  reflexivity.
Qed.

(** *** Any numbers *)

Section Laws.

Context {number : Type} {codec : JsonNumber number}
        {laws : JsonNumberLaws number}.

Lemma span_number_app (tok rest : list ascii) :
  Forall (fun c => is_number_char c = true) tok ->
  delimited rest ->
  span_number (tok ++ rest) = (tok, rest).
Proof.
  intros Htok Hrest. induction Htok as [|c tok Hc _ IH]; cbn [span_number app].
  - destruct rest as [|c rest]; [reflexivity|].
    cbn [span_number delimited] in *. rewrite Hrest. reflexivity.
  - rewrite Hc, IH. reflexivity.
Qed.

(** The parser reads the text of a number back as the number and stops
    after it. *)
Lemma parse_number_text (x : number) (rest : list ascii) :
  delimited rest ->
  parse_number (number_text x ++ rest) = Some (x, rest).
Proof.
  intros Hrest. unfold parse_number.
  rewrite (span_number_app _ rest (number_text_chars x) Hrest).
  destruct (number_text_head x) as (c & tail & Htext & _).
  rewrite Htext at 1. rewrite read_number_text. reflexivity.
Qed.

(** *** Values *)

Lemma value_start_not_ws (c : ascii) : value_start c = true -> is_ws c = false.
Proof. by_cases_on_char c. Qed.

Lemma digit_value_start (c : ascii) : is_digit c = true -> value_start c = true.
Proof. by_cases_on_char c. Qed.

Lemma encode_head (v : json number) :
  exists c tail, encode v = c :: tail /\ value_start c = true.
Proof.
  destruct v as [|[|]|n|s|items|members];
    try (eexists _, _; split; reflexivity).
  destruct (number_text_head n) as (c & tail & Hn & [Hc | ->]).
  - exists c, tail. split; [exact Hn|]. apply digit_value_start, Hc.
  - eexists _, _. split; [exact Hn|]. reflexivity.
Qed.

(** Unfolding equations of the parser, one per syntactic form. *)

Lemma parse_value_number (fuel : nat) (c : ascii) (tail : list ascii) :
  is_digit c = true \/ c = "-" ->
  parse_value (S fuel) (c :: tail)
  = match parse_number (c :: tail) with
    | Some (n, rest) => Some (JNumber n, rest)
    | None => None
    end.
Proof. intros [H | ->]; [by_cases_on_char c | reflexivity]. Qed.

Lemma parse_value_string (fuel : nat) (tail : list ascii) :
  parse_value (S fuel) (quote :: tail)
  = match parse_string_body tail with
    | Some (s, rest) => Some (JString (string_of_list_ascii s), rest)
    | None => None
    end.
Proof. reflexivity. Qed.

Lemma parse_value_array (fuel : nat) (c : ascii) (tail : list ascii) :
  value_start c = true ->
  parse_value (S fuel) ("[" :: c :: tail)
  = match parse_elements fuel (c :: tail) with
    | Some (items, rest) => Some (JArray items, rest)
    | None => None
    end.
Proof. intros H. by_cases_on_char c. Qed.

Lemma parse_value_object (fuel : nat) (tail : list ascii) :
  parse_value (S fuel) ("{" :: quote :: tail)
  = match parse_members fuel (quote :: tail) with
    | Some (members, rest) => Some (JObject members, rest)
    | None => None
    end.
Proof. reflexivity. Qed.

Lemma parse_elements_step (fuel : nat) (input : list ascii) :
  parse_elements (S fuel) input
  = match parse_value fuel input with
    | Some (v, rest) =>
        match skip_ws rest with
        | [] => None
        | c :: rest' =>
            if Ascii.eqb c "," then
              match parse_elements fuel rest' with
              | Some (vs, rest'') => Some (v :: vs, rest'')
              | None => None
              end
            else if Ascii.eqb c "]" then Some ([v], rest')
            else None
        end
    | None => None
    end.
Proof. reflexivity. Qed.

Lemma parse_members_step (fuel : nat) (key tail : list ascii) :
  parse_members (S fuel) (quote :: flat_map escape_char key ++ quote :: ":" :: tail)
  = match parse_value fuel tail with
    | Some (v, rest) =>
        match skip_ws rest with
        | [] => None
        | c :: rest' =>
            if Ascii.eqb c "," then
              match parse_members fuel rest' with
              | Some (ms, rest'') =>
                  Some ((string_of_list_ascii key, v) :: ms, rest'')
              | None => None
              end
            else if Ascii.eqb c "}"
            then Some ([(string_of_list_ascii key, v)], rest')
            else None
        end
    | None => None
    end.
Proof.
  cbn [parse_members skip_ws is_ws quote].
  change (Ascii.eqb "034" quote) with true. cbv iota.
  rewrite parse_string_body_encode. reflexivity.
Qed.

Lemma elements_size_cons (x : json number) (items : list (json number)) :
  elements_size (x :: items) = S (json_size x + elements_size items).
Proof. reflexivity. Qed.

Lemma members_size_cons (m : string * json number)
    (members : list (string * json number)) :
  members_size (m :: members) = S (json_size (snd m) + members_size members).
Proof. reflexivity. Qed.

Lemma parse_elements_encode (items : list (json number)) :
  Forall reads_back items ->
  forall (x : json number) (fuel : nat) (rest : list ascii),
    reads_back x ->
    elements_size (x :: items) <= fuel ->
    parse_elements fuel (join [","] (map encode (x :: items)) ++ "]" :: rest)
    = Some (x :: items, rest).
Proof.
  induction 1 as [|y ys Hy _ IH]; intros x fuel rest Hx Hfuel;
    rewrite elements_size_cons in Hfuel;
    (destruct fuel as [|fuel]; [lia|]);
    rewrite parse_elements_step.
  - cbn [map join].
    rewrite (Hx fuel ("]" :: rest)) by (try reflexivity; lia).
    reflexivity.
  - change (join [","] (map encode (x :: y :: ys)))
      with (encode x ++ [","] ++ join [","] (map encode (y :: ys))).
    rewrite <- !app_assoc. cbn [app].
    rewrite (Hx fuel) by (try reflexivity; lia).
    cbn [skip_ws is_ws]. change (Ascii.eqb "," ",") with true. cbv iota.
    rewrite (IH y fuel rest Hy) by lia. reflexivity.
Qed.

Lemma parse_members_encode (members : list (string * json number)) :
  Forall (fun m => reads_back (snd m)) members ->
  forall (m : string * json number) (fuel : nat) (rest : list ascii),
    reads_back (snd m) ->
    members_size (m :: members) <= fuel ->
    parse_members fuel
      (join [","]
         (map (fun m => encode_string (fst m) ++ ":" :: encode (snd m))
              (m :: members)) ++ "}" :: rest)
    = Some (m :: members, rest).
Proof.
  induction 1 as [|m' ms Hm' _ IH]; intros [k v] fuel rest Hv Hfuel;
    rewrite members_size_cons in Hfuel;
    (destruct fuel as [|fuel]; [lia|]);
    cbn [fst snd] in *.
  - cbn [map join fst snd]. unfold encode_string.
    cbn [app]. rewrite <- !app_assoc. cbn [app].
    rewrite parse_members_step.
    rewrite (Hv fuel ("}" :: rest)) by (try reflexivity; lia).
    cbn [skip_ws is_ws]. rewrite string_of_list_ascii_of_string. reflexivity.
  - change (join [","]
              (map (fun m => encode_string (fst m) ++ ":" :: encode (snd m))
                   ((k, v) :: m' :: ms)))
      with ((encode_string k ++ ":" :: encode v) ++ [","]
            ++ join [","]
                 (map (fun m => encode_string (fst m) ++ ":" :: encode (snd m))
                      (m' :: ms))).
    unfold encode_string at 1. cbn [app]. rewrite <- !app_assoc. cbn [app].
    rewrite <- ?app_assoc. cbn [app].
    rewrite parse_members_step.
    rewrite (Hv fuel) by (try reflexivity; lia).
    cbn [skip_ws is_ws]. change (Ascii.eqb "," ",") with true. cbv iota.
    rewrite (IH m' fuel rest Hm') by lia.
    rewrite string_of_list_ascii_of_string. reflexivity.
Qed.

Lemma parse_value_encode (v : json number) : reads_back v.
Proof.
  induction v as [| b | n | s | items IH | members IH] using json_nested_ind;
    intros fuel rest Hfuel Hrest;
    (destruct fuel as [|fuel]; [cbn in Hfuel; lia|]).
  - reflexivity.
  - destruct b; reflexivity.
  - cbn [encode].
    destruct (number_text_head n) as (c & tail & Hn & Hc).
    pose proof (parse_number_text n rest Hrest) as Hparse.
    rewrite Hn in *. cbn [app] in *.
    rewrite (parse_value_number fuel c _ Hc), Hparse. reflexivity.
  - cbn [encode]. unfold encode_string. cbn [app]. rewrite <- app_assoc.
    cbn [app]. rewrite parse_value_string, parse_string_body_encode.
    rewrite string_of_list_ascii_of_string. reflexivity.
  - cbn [encode]. destruct IH as [|x items Hx Hitems]; [reflexivity|].
    cbn [app]. rewrite <- app_assoc. cbn [app].
    destruct (encode_head x) as (c & tail & Hhead & Hc).
    assert (Hjoin : exists tail', join [","] (map encode (x :: items)) = c :: tail').
    { cbn [map join]. rewrite Hhead. destruct (map encode items); eexists; reflexivity. }
    destruct Hjoin as (tail' & Hjoin).
    pose proof (parse_elements_encode items Hitems x fuel rest Hx) as Hparse.
    rewrite Hjoin in *. cbn [app] in *.
    rewrite (parse_value_array fuel c _ Hc).
    rewrite Hparse; [reflexivity|].
    cbn [json_size] in Hfuel. unfold elements_size. lia.
  - cbn [encode]. destruct IH as [|[k x] members Hx Hmembers]; [reflexivity|].
    cbn [app]. rewrite <- app_assoc. cbn [app].
    pose proof (parse_members_encode members Hmembers (k, x) fuel rest Hx) as Hparse.
    assert (Hjoin : exists tail',
               join [","]
                 (map (fun m => encode_string (fst m) ++ ":" :: encode (snd m))
                      ((k, x) :: members)) = quote :: tail').
    { cbn [map join fst]. unfold encode_string at 1.
      destruct (map _ members); eexists; reflexivity. }
    destruct Hjoin as (tail' & Hjoin).
    rewrite Hjoin in *. cbn [app] in *.
    rewrite parse_value_object.
    rewrite Hparse; [reflexivity|].
    cbn [json_size] in Hfuel. unfold members_size. lia.
Qed.

(** Enough fuel: the parser is started with more fuel than the text has
    characters, and a value is never larger than its text. *)

Lemma elements_size_le_length (items : list (json number)) :
  Forall (fun x => json_size x <= length (encode x)) items ->
  elements_size items <= length (join [","] (map encode items)) + 1.
Proof.
  induction 1 as [|x items Hx Hitems IH]; [cbn; lia|].
  rewrite elements_size_cons.
  destruct items as [|y ys].
  - cbn [map join elements_size list_sum]. cbn. lia.
  - change (join [","] (map encode (x :: y :: ys)))
      with (encode x ++ [","] ++ join [","] (map encode (y :: ys))).
    rewrite !length_app. cbn [length]. lia.
Qed.

Lemma members_size_le_length (members : list (string * json number)) :
  Forall (fun m => json_size (snd m) <= length (encode (snd m))) members ->
  members_size members
  <= length (join [","]
               (map (fun m => encode_string (fst m) ++ ":" :: encode (snd m))
                    members)) + 1.
Proof.
  induction 1 as [|m members Hm Hmembers IH]; [cbn; lia|].
  rewrite members_size_cons.
  destruct members as [|m' ms].
  - cbn [map join members_size list_sum]. rewrite length_app. cbn. lia.
  - change (join [","]
              (map (fun m => encode_string (fst m) ++ ":" :: encode (snd m))
                   (m :: m' :: ms)))
      with ((encode_string (fst m) ++ ":" :: encode (snd m)) ++ [","]
            ++ join [","]
                 (map (fun m => encode_string (fst m) ++ ":" :: encode (snd m))
                      (m' :: ms))).
    rewrite !length_app. cbn [length]. lia.
Qed.

Lemma json_size_le_length (v : json number) : json_size v <= length (encode v).
Proof.
  induction v as [| b | n | s | items IH | members IH] using json_nested_ind.
  - cbn. lia.
  - destruct b; cbn; lia.
  - cbn [encode json_size].
    destruct (number_text_head n) as (c & tail & -> & _). cbn. lia.
  - cbn [encode json_size]. unfold encode_string. cbn. lia.
  - cbn [encode json_size length]. rewrite length_app. cbn [length].
    pose proof (elements_size_le_length items IH). unfold elements_size in *.
    lia.
  - cbn [encode json_size length]. rewrite length_app. cbn [length].
    pose proof (members_size_le_length members IH). unfold members_size in *.
    lia.
Qed.

(** Parsing the text of a value gives the value back. *)
Lemma parse_stringify (v : json number) : parse (stringify v) = Some v.
Proof.
  unfold parse, stringify. rewrite list_ascii_of_string_of_list_ascii.
  pose proof (parse_value_encode v (S (length (encode v))) []) as H.
  rewrite app_nil_r in H. rewrite H; [reflexivity | | exact I].
  pose proof (json_size_le_length v). lia.
Qed.

End Laws.

(** *** The integers *)

Lemma digits_are_digits (u : Decimal.uint) :
  Forall (fun c => is_digit c = true) (digits u).
Proof.
  unfold digits. induction u; cbn; constructor; auto.
Qed.

Lemma digit_is_not_minus (c : ascii) :
  is_digit c = true -> Ascii.eqb c "-" = false.
Proof. by_cases_on_char c. Qed.

Lemma to_uint_no_leading_zero (p : positive) (d : Decimal.uint) :
  Pos.to_uint p <> Decimal.D0 d.
Proof.
  intros H.
  assert (Hnorm : Decimal.unorm (Pos.to_uint p) = Pos.to_uint p).
  { rewrite <- DecimalPos.Unsigned.to_of, DecimalPos.Unsigned.of_to.
    reflexivity. }
  rewrite H in Hnorm. rewrite DecimalFacts.unorm_D0 in Hnorm.
  unfold Decimal.unorm in Hnorm.
  destruct (Decimal.nzhead d) as [|u|u|u|u|u|u|u|u|u|u] eqn:Hd;
    try discriminate.
  - injection Hnorm as <-. exact (DecimalPos.Unsigned.to_uint_nonzero p H).
  - exact (DecimalFacts.nzhead_nonzero d u Hd).
Qed.

Lemma digits_of_positive (p : positive) :
  exists c tail,
    digits (Pos.to_uint p) = c :: tail
    /\ is_digit c = true
    /\ well_formed_digits (c :: tail) = true.
Proof.
  pose proof (to_uint_no_leading_zero p) as Hz.
  pose proof (DecimalPos.Unsigned.to_uint_nonnil p) as Hn.
  unfold digits.
  destruct (Pos.to_uint p) as [|u|u|u|u|u|u|u|u|u|u]; cbn;
    try congruence;
    try (eexists _, _; split; [reflexivity|]; split; [reflexivity|];
         destruct (list_ascii_of_string _); reflexivity).
Qed.

Lemma string_of_positive (p : positive) :
  NilZero.string_of_uint (Pos.to_uint p)
  = string_of_list_ascii (digits (Pos.to_uint p)).
Proof.
  unfold digits. rewrite string_of_list_ascii_of_string.
  pose proof (DecimalPos.Unsigned.to_uint_nonnil p) as Hn.
  destruct (Pos.to_uint p); [congruence|reflexivity..].
Qed.

Lemma int_of_string_to_int (n : Z) :
  NilZero.int_of_string (NilZero.string_of_int (Z.to_int n)) = Some (Z.to_int n).
Proof.
  apply NilZero.isi; destruct n as [|p|p]; cbn; try discriminate;
    intros [= H]; apply (DecimalPos.Unsigned.to_uint_nonnil p H).
Qed.

Lemma digit_is_number_char (c : ascii) :
  is_digit c = true -> is_number_char c = true.
Proof. by_cases_on_char c. Qed.

Lemma integer_text_positive (p : positive) :
  integer_text (Z.pos p) = digits (Pos.to_uint p).
Proof.
  unfold integer_text. cbn [Z.to_int NilZero.string_of_int].
  rewrite string_of_positive. apply list_ascii_of_string_of_list_ascii.
Qed.

Lemma integer_text_negative (p : positive) :
  integer_text (Z.neg p) = "-" :: digits (Pos.to_uint p).
Proof.
  unfold integer_text. cbn [Z.to_int NilZero.string_of_int].
  rewrite string_of_positive. cbn [list_ascii_of_string].
  rewrite list_ascii_of_string_of_list_ascii. reflexivity.
Qed.

Lemma read_integer_text (n : Z) : read_integer (integer_text n) = Some n.
Proof.
  pose proof (int_of_string_to_int n) as Hparse.
  pose proof (DecimalZ.of_to n) as Hval.
  assert (Htext : string_of_list_ascii (integer_text n)
                  = NilZero.string_of_int (Z.to_int n))
    by apply string_of_list_ascii_of_string.
  unfold read_integer. rewrite Htext, Hparse, Hval.
  destruct n as [|p|p]; [reflexivity| |].
  - rewrite integer_text_positive.
    destruct (digits_of_positive p) as (c & tail & Hds & Hc & Hwf).
    rewrite Hds, (digit_is_not_minus c Hc), Hwf. reflexivity.
  - rewrite integer_text_negative.
    destruct (digits_of_positive p) as (c & tail & Hds & Hc & Hwf).
    cbn [Ascii.eqb Bool.eqb]. rewrite Hds, Hwf. reflexivity.
Qed.

#[global] Instance integer_laws : JsonNumberLaws Z.
Proof.
  split.
  - intros n. change (number_text n) with (integer_text n).
    destruct n as [|p|p].
    + exists "0", []. split; [reflexivity|]. left. reflexivity.
    + destruct (digits_of_positive p) as (c & tail & Hds & Hc & _).
      exists c, tail. rewrite integer_text_positive. split; [exact Hds|].
      left. exact Hc.
    + eexists "-", _. rewrite integer_text_negative. split; [reflexivity|].
      right. reflexivity.
  - intros n. change (number_text n) with (integer_text n).
    assert (Hdigits : forall u,
               List.Forall (fun c => is_number_char c = true) (digits u)).
    { intros u. eapply List.Forall_impl; [|apply digits_are_digits].
      intros c. apply digit_is_number_char. }
    destruct n as [|p|p].
    + repeat constructor.
    + rewrite integer_text_positive. apply Hdigits.
    + rewrite integer_text_negative. constructor; [reflexivity|apply Hdigits].
  - exact read_integer_text.
Qed.

(** *** Number literals *)

Lemma literal_head (t : list ascii) :
  number_grammar t = true ->
  exists c tail, t = c :: tail /\ (is_digit c = true \/ c = "-").
Proof.
  unfold number_grammar. destruct t as [|c tail]; [discriminate|].
  intros Hg. exists c, tail. split; [reflexivity|].
  destruct (Ascii.eqb_spec c "-") as [->|_]; [right; reflexivity|].
  left. cbn [span_digits] in Hg. destruct (is_digit c); [reflexivity|].
  discriminate Hg.
Qed.

Lemma literal_eq (x y : number_literal) :
  literal_text x = literal_text y -> x = y.
Proof.
  destruct x as [t ok], y as [t' ok']. cbn. intros <-.
  f_equal. apply Eqdep_dec.UIP_dec, Bool.bool_dec.
Qed.

#[global] Instance literal_laws : JsonNumberLaws number_literal.
Proof.
  split.
  - intros [t ok]. cbn. unfold is_number_literal in ok.
    apply andb_true_iff in ok as [_ Hg]. apply literal_head, Hg.
  - intros [t ok]. cbn. unfold is_number_literal in ok.
    apply andb_true_iff in ok as [Hchars _].
    apply List.Forall_forall. apply forallb_forall, Hchars.
  - intros x. cbn. unfold read_literal.
    destruct (Sumbool.sumbool_of_bool (is_number_literal (literal_text x)))
      as [ok|bad].
    + f_equal. apply literal_eq. reflexivity.
    + rewrite (literal_ok x) in bad. discriminate bad.
Qed.

(** *** The codec on small inputs *)

Example stringify_array :
  stringify (JArray [JNumber 1%Z; JNumber (-20)%Z; JBool true; JNull; JArray []])
  = "[1,-20,true,null,[]]"%string.
Proof. reflexivity. Qed.

Example encode_object :
  encode (JObject [("a"%string, JNumber 1%Z)])
  = ["{"; quote; "a"; quote; ":"; "1"; "}"].
Proof. reflexivity. Qed.

Example encode_control_characters :
  encode (number := Z) (JString (String "010" (String "001" EmptyString)))
  = [quote; backslash; "n"; backslash; "u"; "0"; "0"; "0"; "1"; quote].
Proof. reflexivity. Qed.

Example parse_spaced_array :
  parse " [ 1 , -20 ,[ ] ] "
  = Some (JArray [JNumber 1%Z; JNumber (-20)%Z; JArray []]).
Proof. reflexivity. Qed.

(** Numbers with a fraction or an exponent are read as literals. *)
Example parse_fraction_and_exponent :
  parse "[1.5, 1e+21]"
  = Some (JArray [JNumber (literal_of "1.5" eq_refl);
                  JNumber (literal_of "1e+21" eq_refl)]).
Proof. reflexivity. Qed.

Example parse_rejects_leading_zero :
  parse (number := number_literal) "01" = None.
Proof. reflexivity. Qed.

Example parse_rejects_bare_fraction :
  parse (number := number_literal) "[1.]" = None.
Proof. reflexivity. Qed.

Example parse_rejects_trailing_comma :
  parse (number := number_literal) "[1,]" = None.
Proof. reflexivity. Qed.

End JsonFacts.

(** * Properties of headers and of the body normaliser *)

Module HttpFacts.
Import Http.

Lemma same_name_refl (a : string) : same_name a a = true.
Proof. apply String.eqb_refl. Qed.

Lemma same_name_sym (a b : string) : same_name a b = same_name b a.
Proof. apply String.eqb_sym. Qed.

Lemma same_name_trans (a b c : string) :
  same_name a b = true -> same_name b c = true -> same_name a c = true.
Proof.
  unfold same_name. rewrite !String.eqb_eq. congruence.
Qed.

(** Two spellings of one name agree with every third name. *)
Lemma same_name_congr (a b c : string) :
  same_name a b = true -> same_name c a = same_name c b.
Proof.
  unfold same_name. rewrite String.eqb_eq. intros ->. reflexivity.
Qed.

Lemma header_get_same_name (a b : string) (h : headers) :
  same_name a b = true -> header_get a h = header_get b h.
Proof.
  intros Hab. induction h as [|[k v] rest IH]; [reflexivity|].
  cbn [header_get]. rewrite (same_name_congr a b k Hab), IH. reflexivity.
Qed.

Lemma header_get_set_same (name name' value : string) (h : headers) :
  same_name name name' = true ->
  header_get name' (header_set name value h) = Some value.
Proof.
  intros Hn. induction h as [|[k v] rest IH]; cbn [header_set header_get].
  - rewrite Hn. reflexivity.
  - destruct (same_name k name) eqn:Hk; cbn [header_get].
    + rewrite (same_name_trans k name name' Hk Hn). reflexivity.
    + rewrite <- (same_name_congr name name' k Hn), Hk. exact IH.
Qed.

Lemma header_get_set_other (name name' value : string) (h : headers) :
  same_name name name' = false ->
  header_get name' (header_set name value h) = header_get name' h.
Proof.
  intros Hn. induction h as [|[k v] rest IH]; cbn [header_set header_get].
  - rewrite Hn. reflexivity.
  - destruct (same_name k name) eqn:Hk; cbn [header_get].
    + rewrite (same_name_sym k name'), (same_name_congr k name name' Hk).
      rewrite (same_name_sym name' name), Hn. reflexivity.
    + rewrite IH. reflexivity.
Qed.

Lemma header_get_default_same (name value : string) (h : headers) :
  header_get name (header_default name value h)
  = match header_get name h with
    | Some v => Some v
    | None => Some value
    end.
Proof.
  unfold header_default, header_has.
  destruct (header_get name h) eqn:Hget; [exact Hget|].
  apply header_get_set_same, same_name_refl.
Qed.

Lemma header_has_same_name (a b : string) (h : headers) :
  same_name a b = true -> header_has a h = header_has b h.
Proof.
  intros Hab. unfold header_has. rewrite (header_get_same_name a b h Hab).
  reflexivity.
Qed.

Lemma header_get_app (name : string) (h1 h2 : headers) :
  header_get name (h1 ++ h2)
  = match header_get name h1 with
    | Some value => Some value
    | None => header_get name h2
    end.
Proof.
  induction h1 as [|[k v] rest IH]; [reflexivity|].
  cbn [app header_get]. destruct (same_name k name); [reflexivity|exact IH].
Qed.

Lemma header_get_all_app (name : string) (h1 h2 : headers) :
  header_get_all name (h1 ++ h2)
  = header_get_all name h1 ++ header_get_all name h2.
Proof.
  induction h1 as [|[k v] rest IH]; [reflexivity|].
  cbn [app header_get_all]. destruct (same_name k name); cbn; rewrite IH;
    reflexivity.
Qed.

(** What stays of [base] in a merge: under a name that [over] has, nothing;
    under any other name, what [base] had. *)
Lemma header_get_all_kept (name : string) (over base : headers) :
  header_get_all name
    (List.filter (fun kv => negb (header_has (fst kv) over)) base)
  = if header_has name over then [] else header_get_all name base.
Proof.
  induction base as [|[k v] rest IH]; [destruct (header_has name over); reflexivity|].
  cbn [List.filter fst header_get_all].
  destruct (same_name k name) eqn:Hk.
  - rewrite (header_has_same_name k name over Hk).
    destruct (header_has name over) eqn:Hover; cbn [negb].
    + exact IH.
    + cbn [header_get_all]. rewrite Hk, IH. reflexivity.
  - destruct (negb (header_has k over)); [cbn [header_get_all]; rewrite Hk|];
      exact IH.
Qed.

Lemma header_get_kept (name : string) (over base : headers) :
  header_get name
    (List.filter (fun kv => negb (header_has (fst kv) over)) base)
  = if header_has name over then None else header_get name base.
Proof.
  induction base as [|[k v] rest IH]; [destruct (header_has name over); reflexivity|].
  cbn [List.filter fst header_get].
  destruct (same_name k name) eqn:Hk.
  - rewrite (header_has_same_name k name over Hk).
    destruct (header_has name over) eqn:Hover; cbn [negb].
    + exact IH.
    + cbn [header_get]. rewrite Hk. reflexivity.
  - destruct (negb (header_has k over)); [cbn [header_get]; rewrite Hk|];
      exact IH.
Qed.

(** Headers that [over] does not name are those of [base]. *)
Lemma header_get_merge_absent (name : string) (over base : headers) :
  header_get name over = None ->
  header_get name (header_merge base over) = header_get name base.
Proof.
  intros Hname. unfold header_merge.
  rewrite header_get_app, header_get_kept. unfold header_has.
  rewrite Hname. destruct (header_get name base); reflexivity.
Qed.

(** Headers that [over] names have the value [over] gives them. *)
Lemma header_get_merge_present (name value : string) (over base : headers) :
  header_get name over = Some value ->
  header_get name (header_merge base over) = Some value.
Proof.
  intros Hname. unfold header_merge.
  rewrite header_get_app, header_get_kept. unfold header_has.
  rewrite Hname. reflexivity.
Qed.

(** Under a name that [over] has, the merge has the values of [over], all
    of them and in order. *)
Lemma header_get_all_merge_present (name : string) (over base : headers) :
  header_has name over = true ->
  header_get_all name (header_merge base over) = header_get_all name over.
Proof.
  intros Hname. unfold header_merge.
  rewrite header_get_all_app, header_get_all_kept, Hname. reflexivity.
Qed.

End HttpFacts.

Module BodyFacts.
Import Http Json Body HttpFacts.

(** *** Streaming *)

Lemma pump_ext (reads : nat) :
  forall (s1 s2 : byte_stream) (n1 n2 : nat),
    (forall i, s1 (n1 + i) = s2 (n2 + i)) ->
    pump reads s1 n1 = pump reads s2 n2.
Proof.
  induction reads as [|reads IH]; intros s1 s2 n1 n2 Hs; [reflexivity|].
  cbn [pump]. pose proof (Hs 0) as H0. rewrite !Nat.add_0_r in H0.
  rewrite H0. destruct (s2 n2); try reflexivity.
  f_equal. apply IH. intros i. specialize (Hs (S i)).
  rewrite !Nat.add_succ_r in Hs. exact Hs.
Qed.

(** A stream of finitely many chunks is written out chunk by chunk and then
    ended, as soon as one more read is allowed than there are chunks. *)
Lemma pump_stream_of (chunks : list bytes) :
  forall reads : nat,
    length chunks < reads ->
    pump reads (stream_of chunks) 0 = map Write chunks ++ [End_].
Proof.
  induction chunks as [|c cs IH]; intros reads Hreads;
    (destruct reads as [|reads]; [cbn in Hreads; lia|]).
  - reflexivity.
  - cbn [pump]. cbn [stream_of nth_error map app]. f_equal.
    rewrite <- (IH reads) by (cbn in Hreads; lia).
    apply pump_ext. intros i. reflexivity.
Qed.

Lemma written_writes (chunks : list bytes) (tail : list conn_event) :
  written (map Write chunks ++ tail) = chunks ++ written tail.
Proof.
  induction chunks as [|c cs IH]; [reflexivity|]. cbn. rewrite IH. reflexivity.
Qed.

(** The [i]-th chunk written is the chunk that the [i]-th read produced. *)
Lemma pump_written_lookup (reads : nat) (source : byte_stream) :
  forall (next i : nat) (data : bytes),
    written (pump reads source next) !! i = Some data ->
    source (next + i) = Chunk data.
Proof.
  induction reads as [|reads IH]; intros next i data Hi; [discriminate|].
  cbn [pump] in Hi. destruct (source next) as [c| |] eqn:Hnext;
    try discriminate.
  cbn [written] in Hi. destruct i as [|i].
  - cbn in Hi. injection Hi as <-. rewrite Nat.add_0_r. exact Hnext.
  - cbn in Hi. rewrite Nat.add_succ_r. apply (IH (S next) i data Hi).
Qed.

(** Writing stops only when the reads are used up or the stream has no
    further chunk. *)
Lemma pump_written_length (reads : nat) (source : byte_stream) :
  forall next : nat,
    length (written (pump reads source next)) = reads
    \/ (length (written (pump reads source next)) < reads
        /\ forall data,
             source (next + length (written (pump reads source next)))
             <> Chunk data).
Proof.
  induction reads as [|reads IH]; intros next; [left; reflexivity|].
  cbn [pump]. destruct (source next) as [c| |] eqn:Hnext.
  - cbn [written length].
    destruct (IH (S next)) as [Hall | [Hlt Hstop]].
    + left. rewrite Hall. reflexivity.
    + right. split; [lia|]. intros data. rewrite Nat.add_succ_r. apply Hstop.
  - right. cbn. split; [lia|]. intros data. rewrite Nat.add_0_r, Hnext.
    discriminate.
  - right. cbn. split; [lia|]. intros data. rewrite Nat.add_0_r, Hnext.
    discriminate.
Qed.

Section AnyNumbers.

Context {number : Type} {codec : JsonNumber number}.

(** What the host layer does with the status of a response without a
    body. *)
Variable no_content : bool.

(** *** The normaliser on the bodies of the test suite *)

Example text_body :
  respond no_content "boundary" 1 (set_body (BText "Hello, Hoa!") fresh)
  = [WriteHead 200 []; Write (utf8_bytes "Hello, Hoa!"); End_].
Proof. reflexivity. Qed.

Example url_encoded_body :
  respond no_content "boundary" 1
    (set_body (BUrlEncoded [("a", "1"); ("b", "2")]) fresh)
  = [WriteHead 200 [("Content-Type", "application/x-www-form-urlencoded")];
     Write (utf8_bytes "a=1&b=2"); End_].
Proof. reflexivity. Qed.

Example form_data_content_type :
  header_get "content-type"
    (r_headers
       (normalize "xyz" (set_body (BFormData [FieldText "a" "1"]) fresh)))
  = Some "multipart/form-data; boundary=xyz".
Proof. reflexivity. Qed.

Example foreign_response_body :
  respond no_content "boundary" 2 (set_body (BForeign created_response) fresh)
  = [WriteHead 201 [("content-type", "text/plain"); ("X-Foo", "foo")];
     Write (utf8_bytes "response body"); End_].
Proof. reflexivity. Qed.

(** A stream that fails after its first chunk: the chunk is written and the
    connection aborted. *)
Example failing_stream :
  respond no_content "boundary" 5
    (set_body
       (BStream (fun n => if Nat.eqb n 0 then Chunk (utf8_bytes "Hel") else Failed))
       fresh)
  = [WriteHead 200 []; Write (utf8_bytes "Hel"); Abort].
Proof. reflexivity. Qed.

(** *** The claims about the body normaliser *)

(** C4, as amended.  When the descriptor has an explicit [Content-Type] and
    the body is of any kind other than a foreign response that carries a
    [Content-Type] of its own, the normalised response has the descriptor's
    [Content-Type]: inference fills the header only where it is absent. *)
Theorem explicit_content_type_is_kept (boundary : string)
    (d : descriptor number) (ct : string) :
  header_get "Content-Type" (headers_of d) = Some ct ->
  foreign_content_type (body d) = None ->
  header_get "Content-Type" (r_headers (normalize boundary d)) = Some ct.
Proof.
  intros Hct Hforeign. unfold normalize.
  destruct (body d) as [| | | | | | | | |r]; cbn [r_headers];
    try exact Hct;
    try (rewrite header_get_default_same, Hct; reflexivity).
  cbn [foreign_content_type] in Hforeign.
  rewrite (header_get_merge_absent _ _ _ Hforeign). exact Hct.
Qed.



(** C7.  For a binary buffer as the body the received bytes are the buffer;
    for a binary view they are the bytes of the buffer from the view's
    offset on, as many as the view's length; either is sent in one write
    and the headers are those of the descriptor, so no [Content-Type] is
    inferred. *)
Theorem binary_body_round_trip (boundary : string) (st : Z) (h : headers)
    (buffer : bytes) (byteOffset byteLength reads : nat) :
  byteOffset + byteLength <= length buffer ->
  let whole : descriptor number := Descriptor st h (BBuffer buffer) in
  let view : descriptor number :=
    Descriptor st h (BView buffer byteOffset byteLength) in
  respond no_content boundary reads whole = [WriteHead st h; Write buffer; End_]
  /\ received (respond no_content boundary reads whole) = buffer
  /\ written (respond no_content boundary reads view)
     = [view_range buffer byteOffset byteLength]
  /\ length (received (respond no_content boundary reads view)) = byteLength
  /\ (forall i, i < byteLength ->
        received (respond no_content boundary reads view) !! i
        = buffer !! (byteOffset + i))
  /\ r_headers (normalize boundary whole) = h
  /\ r_headers (normalize boundary view) = h.
Proof.
  intros Hrange whole view.
  assert (Hview : received (respond no_content boundary reads view)
                  = take byteLength (drop byteOffset buffer)).
  { unfold respond, transmit, received. cbn. apply app_nil_r. }
  split; [reflexivity|]. split.
  { unfold respond, transmit, received. cbn. apply app_nil_r. }
  split; [reflexivity|]. split; [|split; [|split; reflexivity]].
  - rewrite Hview, length_take, length_drop. lia.
  - intros i Hi. rewrite Hview. unfold bytes in *.
    rewrite lookup_take_lt by exact Hi. apply lookup_drop.
Qed.

(** C8.  For a byte stream as the body, the [i]-th chunk written to the
    connection is the chunk the stream produced at its [i]-th read, and
    writing stops only when the reads are used up or the stream has no
    further chunk; for a stream of finitely many chunks the connection sees
    the head, one write per chunk in produced order, and the end, so the
    bytes received are the concatenation of the chunks produced. *)
Theorem stream_chunks_are_written_in_order (boundary : string) (st : Z)
    (h : headers) (source : byte_stream) (chunks : list bytes) (reads : nat) :
  let streamed (s : byte_stream) : descriptor number :=
    Descriptor st h (BStream s) in
  let ws := written (respond no_content boundary reads (streamed source)) in
  (forall i data, ws !! i = Some data -> source i = Chunk data)
  /\ (length ws = reads
      \/ (length ws < reads /\ forall data, source (length ws) <> Chunk data))
  /\ (length chunks < reads ->
      respond no_content boundary reads (streamed (stream_of chunks))
      = WriteHead st h :: map Write chunks ++ [End_]
      /\ received
           (respond no_content boundary reads (streamed (stream_of chunks)))
         = concat chunks).
Proof.
  intros streamed ws.
  assert (Hws : ws = written (pump reads source 0)) by reflexivity.
  split; [|split].
  - intros i data Hi. rewrite Hws in Hi.
    apply (pump_written_lookup reads source 0 i data Hi).
  - rewrite Hws. apply (pump_written_length reads source 0).
  - intros Hreads. unfold respond, transmit, received. cbn.
    rewrite (pump_stream_of chunks reads Hreads). split; [reflexivity|].
    rewrite written_writes. cbn. rewrite app_nil_r. reflexivity.
Qed.


End AnyNumbers.

(** *** On examples *)

(** C4, as stated: an explicit [Content-Type] survives every body kind.
    This fails for a foreign response that brings its own [Content-Type]:
    its headers are merged over the descriptor's and win. *)
Lemma explicit_content_type_counterexample :
  ~ (forall (boundary : string) (d : descriptor Z) (ct : string),
        header_get "Content-Type" (headers_of d) = Some ct ->
        header_get "Content-Type" (r_headers (normalize boundary d)) = Some ct).
Proof.
  intros H.
  specialize (H "boundary" html_over_foreign "text/html" eq_refl).
  vm_compute in H. discriminate H.
Qed.

Lemma explicit_content_type_is_kept_witness :
  header_get "Content-Type"
    (r_headers
       (normalize "boundary"
          (Descriptor 200 [("content-type", "text/html")]
             (BStructured sample_object))))
  = Some "text/html".
Proof.
  apply (explicit_content_type_is_kept "boundary"
           (Descriptor 200 [("content-type", "text/html")]
              (BStructured sample_object)) "text/html");
    reflexivity.
Defined.



(** The same on the structured value of the test suite, with integers. *)
Example integer_value_round_trip :
  parse
    (string_of_list_byte
       (received
          (respond false "boundary" 1
             (Descriptor 200 [] (BStructured sample_object)))))
  = Some sample_object.
Proof. reflexivity. Qed.

Lemma binary_body_round_trip_witness :
  1 + 3 <= length (utf8_bytes "Hello")
  /\ written
       (respond (number := Z) false "boundary" 1
          (Descriptor 200 [] (BView (utf8_bytes "Hello") 1 3)))
     = [view_range (utf8_bytes "Hello") 1 3].
Proof.
  split; [vm_compute; lia|].
  apply (binary_body_round_trip (number := Z) false "boundary" 200 []
           (utf8_bytes "Hello") 1 3 1).
  vm_compute. lia.
Defined.

Lemma stream_chunks_are_written_in_order_witness :
  length [utf8_bytes "Hello, "; utf8_bytes "Hoa!"] < 3
  /\ received
       (respond (number := Z) false "boundary" 3
          (Descriptor 200 []
             (BStream (stream_of [utf8_bytes "Hello, "; utf8_bytes "Hoa!"]))))
     = concat [utf8_bytes "Hello, "; utf8_bytes "Hoa!"].
Proof.
  split; [vm_compute; lia|].
  apply (stream_chunks_are_written_in_order (number := Z) false "boundary" 200
           [] (stream_of []) [utf8_bytes "Hello, "; utf8_bytes "Hoa!"] 3).
  vm_compute. lia.
Defined.


(** An explicit status goes out as it is, also without a body. *)
Example empty_body_with_explicit_status :
  respond (number := Z) true "boundary" 1 (Descriptor 404 [] BNull)
  = [WriteHead 404 []; End_].
Proof. reflexivity. Qed.

End BodyFacts.

(** * Further properties of the transport binder *)

Module UsageFacts.
Import Js Host NodeServer Usage NodeServerFacts.

Section AnyHost.

Context {answer : ListenAnswer}.

(** *** An application that is no object *)

(** X1.  Applied to [undefined], [null] or another primitive, the extension
    throws a TypeError at the assignment of [listen]; by then the server has
    been created, so the host is left with one more server, which nothing
    refers to.  The store is as before. *)
Theorem extension_on_primitive_throws (options : value) (app : value)
    (w : world) :
  is_primitive app = true ->
  exists msg,
    call (nodeServer options) [app] w
    = (Throw (TypeError msg),
       World (heap w) (servers w ++ [HttpServer (adapter_of app) []])).
Proof.
  intros Hp. exists "Cannot set properties of a primitive".
  destruct app; try discriminate Hp; reflexivity.
Qed.

(** *** What a listen call leaves alone *)

(** X2.  In any world where an application's [listen] is the function
    closed over server [n], a call of [app.listen(...)] leaves the store of
    objects as it is, creates and removes no server, and changes no server
    but [n]; of server [n] it keeps the request listener and extends the
    received calls by the argument list. *)
Theorem listen_changes_only_its_server (l : loc) (o : gmap string value)
    (n : nat) (s : http_server) (w : world) (args : list value) :
  heap w !! l = Some o ->
  o !! "listen" = Some (VListen (VHttpServer n)) ->
  servers w !! n = Some s ->
  let w' := exec (call_method (VObject l) "listen" args) w in
  heap w' = heap w
  /\ length (servers w') = length (servers w)
  /\ (forall m, m <> n -> servers w' !! m = servers w !! m)
  /\ servers w' !! n
     = Some (HttpServer (request_listener s) (listen_calls s ++ [args])).
Proof.
  intros Hl Ho Hs w'. unfold w', exec.
  rewrite (listen_method_call l o n s w args Hl Ho Hs). cbn.
  assert (Hn : n < length (servers w)) by (eapply lookup_lt_Some; eauto).
  split; [reflexivity|]. split; [apply length_insert|]. split.
  - intros m Hm. apply list_lookup_insert_ne. congruence.
  - apply list_lookup_insert_eq, Hn.
Qed.

(** *** Extending an application twice *)

(** The world after the extension has run on an object of the store. *)
Lemma exec_extension (options : value) (l : loc) (o : gmap string value)
    (w : world) :
  heap w !! l = Some o ->
  exec (call (nodeServer options) [VObject l]) w
  = World (<[l := <["listen" := VListen (VHttpServer (length (servers w)))]> o]>
             (heap w))
          (servers w ++ [HttpServer (adapter_of (VObject l)) []]).
Proof.
  intros Hl. unfold exec. rewrite (call_extension_on_object options l o w Hl).
  reflexivity.
Qed.

(** X3.  A second application of the extension to the same object creates a
    second server and rebinds [app.listen] to it: later [app.listen(...)]
    calls are received by the second server and the first receives none of
    them.  The function that the first application had installed stays
    closed over the first server. *)
Theorem second_extension_rebinds_listen (options1 options2 : value) (l : loc)
    (o : gmap string value) (w : world) (calls : list (list value)) :
  heap w !! l = Some o ->
  let app := VObject l in
  let n := length (servers w) in
  let w1 := exec (call (nodeServer options1) [app]) w in
  let w2 := exec (call (nodeServer options2) [app]) w1 in
  servers w2
  = servers w ++ [HttpServer (adapter_of app) []; HttpServer (adapter_of app) []]
  /\ eval (get_property app "listen") w2 = Ok (VListen (VHttpServer (S n)))
  /\ servers (exec (listen_each app calls) w2)
     = servers w
       ++ [HttpServer (adapter_of app) []; HttpServer (adapter_of app) calls]
  /\ (exists first,
        eval (get_property app "listen") w1 = Ok first
        /\ forall args,
             servers (exec (call first args) w2)
             = servers w
               ++ [HttpServer (adapter_of app) [args];
                   HttpServer (adapter_of app) []]).
Proof.
  intros Hl app n w1 w2.
  set (o1 := <["listen" := VListen (VHttpServer n)]> o).
  set (o2 := <["listen" := VListen (VHttpServer (S n))]> o1).
  set (srv := HttpServer (adapter_of app)).
  assert (Hw1 : w1 = World (<[l := o1]> (heap w)) (servers w ++ [srv []])).
  { unfold w1, app. rewrite (exec_extension options1 l o w Hl). reflexivity. }
  assert (Hl1 : heap w1 !! l = Some o1) by (rewrite Hw1; apply lookup_insert_eq).
  assert (Hlen1 : length (servers w1) = S n).
  { rewrite Hw1. cbn. rewrite length_app. cbn. unfold n. lia. }
  assert (Hw2 : w2 = World (<[l := o2]> (heap w1))
                       ((servers w ++ [srv []]) ++ [srv []])).
  { unfold w2, app. rewrite (exec_extension options2 l o1 w1 Hl1).
    rewrite Hlen1. rewrite Hw1. reflexivity. }
  assert (Hl2 : heap w2 !! l = Some o2) by (rewrite Hw2; apply lookup_insert_eq).
  assert (Ho2 : o2 !! "listen" = Some (VListen (VHttpServer (S n))))
    by apply lookup_insert_eq.
  assert (Hs2 : servers w2 = servers w ++ [srv []; srv []]).
  { rewrite Hw2. cbn. rewrite <- app_assoc. reflexivity. }
  assert (Hsecond : servers w2 !! S n = Some (srv [])).
  { rewrite Hs2. rewrite lookup_app_r by (unfold n; lia).
    replace (S n - length (servers w)) with 1 by (unfold n; lia). reflexivity. }
  assert (Hfirst : servers w2 !! n = Some (srv [])).
  { rewrite Hs2. rewrite lookup_app_r by (unfold n; lia).
    replace (n - length (servers w)) with 0 by (unfold n; lia). reflexivity. }
  split; [exact Hs2|]. split; [|split].
  - unfold eval, get_property, app. rewrite Hl2, Ho2. reflexivity.
  - unfold app.
    rewrite (listen_each_run l o2 (S n) calls _ w2 Hl2 Ho2 Hsecond). cbn.
    rewrite Hs2. rewrite insert_app_r_alt by (unfold n; lia).
    replace (S n - length (servers w)) with 1 by (unfold n; lia). reflexivity.
  - exists (VListen (VHttpServer n)). split.
    + unfold eval, get_property, app. rewrite Hl1. unfold o1.
      rewrite lookup_insert_eq. reflexivity.
    + intros args. unfold exec. cbn. unfold listen, server_listen.
      rewrite Hfirst. cbn. rewrite Hs2.
      rewrite insert_app_r_alt by (unfold n; lia).
      replace (n - length (servers w)) with 0 by (unfold n; lia). reflexivity.
Qed.

(** *** Two applications *)

Lemma calls_on_other (l l' : loc) (args : list value)
    (rest : list (loc * list value)) :
  l' <> l -> calls_on l ((l', args) :: rest) = calls_on l rest.
Proof.
  intros Hne. cbn. destruct (Nat.eqb_spec l' l); [contradiction|reflexivity].
Qed.

Lemma calls_on_same (l : loc) (args : list value)
    (rest : list (loc * list value)) :
  calls_on l ((l, args) :: rest) = args :: calls_on l rest.
Proof. cbn. rewrite Nat.eqb_refl. reflexivity. Qed.

Lemma exec_listen_run_cons (l : loc) (args : list value)
    (rest : list (loc * list value)) (w : world) :
  exec (listen_run ((l, args) :: rest)) w
  = exec (listen_run rest) (exec (call_method (VObject l) "listen" args) w).
Proof.
  unfold exec. cbn [listen_run].
  destruct (call_method (VObject l) "listen" args w) as [r w']. cbn [snd].
  destruct (listen_run rest w') as [rs w'']. reflexivity.
Qed.

(** A run of listen calls on two applications whose [listen] functions are
    closed over two different servers: each server receives the calls made
    on its application, in order. *)
Lemma listen_run_two (l1 l2 : loc) (p1 p2 : gmap string value) (n1 n2 : nat)
    (run : list (loc * list value)) :
  l1 <> l2 ->
  n1 <> n2 ->
  p1 !! "listen" = Some (VListen (VHttpServer n1)) ->
  p2 !! "listen" = Some (VListen (VHttpServer n2)) ->
  Forall (fun c => fst c = l1 \/ fst c = l2) run ->
  forall (s1 s2 : http_server) (w : world),
    heap w !! l1 = Some p1 ->
    heap w !! l2 = Some p2 ->
    servers w !! n1 = Some s1 ->
    servers w !! n2 = Some s2 ->
    exec (listen_run run) w
    = with_servers
        (<[n1 := HttpServer (request_listener s1)
                   (listen_calls s1 ++ calls_on l1 run)]>
           (<[n2 := HttpServer (request_listener s2)
                      (listen_calls s2 ++ calls_on l2 run)]>
              (servers w))) w.
Proof.
  intros Hl Hn Hp1 Hp2 Hrun.
  induction Hrun as [|[l args] rest Hc _ IH]; intros s1 s2 w H1 H2 Hs1 Hs2.
  - unfold exec. cbn. unfold with_servers. rewrite !app_nil_r.
    destruct s1, s2; cbn.
    rewrite (list_insert_id (servers w) n2) by exact Hs2.
    rewrite (list_insert_id (servers w) n1) by exact Hs1.
    destruct w; reflexivity.
  - assert (Hlt1 : n1 < length (servers w)) by (eapply lookup_lt_Some; eauto).
    assert (Hlt2 : n2 < length (servers w)) by (eapply lookup_lt_Some; eauto).
    rewrite exec_listen_run_cons. unfold exec at 2.
    cbn [fst] in Hc. destruct Hc as [-> | ->].
    + rewrite (listen_method_call l1 p1 n1 s1 w args H1 Hp1 Hs1). cbn [snd].
      rewrite (IH (HttpServer (request_listener s1) (listen_calls s1 ++ [args]))
                 s2); cbn [heap servers with_servers request_listener
                               listen_calls];
        try assumption;
        [ | apply list_lookup_insert_eq, Hlt1
          | rewrite list_lookup_insert_ne by congruence; exact Hs2 ].
      rewrite calls_on_same, (calls_on_other l2 l1) by congruence.
      unfold with_servers. cbn [heap servers].
      rewrite (list_insert_insert_ne _ n2 n1) by congruence.
      rewrite list_insert_insert_eq. rewrite <- app_assoc. reflexivity.
    + rewrite (listen_method_call l2 p2 n2 s2 w args H2 Hp2 Hs2). cbn [snd].
      rewrite (IH s1
                 (HttpServer (request_listener s2) (listen_calls s2 ++ [args])));
        cbn [heap servers with_servers request_listener listen_calls];
        try assumption;
        [ | rewrite list_lookup_insert_ne by congruence; exact Hs1
          | apply list_lookup_insert_eq, Hlt2 ].
      rewrite calls_on_same, (calls_on_other l1 l2) by congruence.
      unfold with_servers. cbn [heap servers].
      rewrite list_insert_insert_eq. rewrite <- app_assoc. reflexivity.
Qed.

(** X4.  One extension applied to two different application objects gives
    each its own server.  Whatever the order of later [listen] calls on the
    two, and whatever the host answers to them, each server has received
    exactly the calls made on its application, in call order, and no
    further server appears. *)
Theorem two_apps_keep_their_servers (options : value) (l1 l2 : loc)
    (o1 o2 : gmap string value) (w : world) (run : list (loc * list value)) :
  l1 <> l2 ->
  heap w !! l1 = Some o1 ->
  heap w !! l2 = Some o2 ->
  Forall (fun c => fst c = l1 \/ fst c = l2) run ->
  let extension := nodeServer options in
  let n := length (servers w) in
  let w2 := exec (call extension [VObject l2])
              (exec (call extension [VObject l1]) w) in
  servers w2
  = servers w
    ++ [HttpServer (adapter_of (VObject l1)) [];
        HttpServer (adapter_of (VObject l2)) []]
  /\ eval (get_property (VObject l1) "listen") w2 = Ok (VListen (VHttpServer n))
  /\ eval (get_property (VObject l2) "listen") w2
     = Ok (VListen (VHttpServer (S n)))
  /\ servers (exec (listen_run run) w2)
     = servers w
       ++ [HttpServer (adapter_of (VObject l1)) (calls_on l1 run);
           HttpServer (adapter_of (VObject l2)) (calls_on l2 run)].
Proof.
  intros Hne H1 H2 Hrun extension n w2.
  set (p1 := <["listen" := VListen (VHttpServer n)]> o1).
  set (p2 := <["listen" := VListen (VHttpServer (S n))]> o2).
  set (srv1 := HttpServer (adapter_of (VObject l1))).
  set (srv2 := HttpServer (adapter_of (VObject l2))).
  set (w1 := exec (call extension [VObject l1]) w).
  assert (Hw1 : w1 = World (<[l1 := p1]> (heap w)) (servers w ++ [srv1 []])).
  { unfold w1, extension. rewrite (exec_extension options l1 o1 w H1).
    reflexivity. }
  assert (H21 : heap w1 !! l2 = Some o2).
  { rewrite Hw1. cbn. rewrite lookup_insert_ne by congruence. exact H2. }
  assert (Hlen1 : length (servers w1) = S n).
  { rewrite Hw1. cbn. rewrite length_app. cbn. unfold n. lia. }
  assert (Hw2 : w2 = World (<[l2 := p2]> (<[l1 := p1]> (heap w)))
                       (servers w ++ [srv1 []; srv2 []])).
  { unfold w2. fold w1. unfold extension.
    rewrite (exec_extension options l2 o2 w1 H21). rewrite Hlen1, Hw1. cbn.
    rewrite <- app_assoc. reflexivity. }
  assert (Hh1 : heap w2 !! l1 = Some p1).
  { rewrite Hw2. cbn. rewrite lookup_insert_ne by congruence.
    apply lookup_insert_eq. }
  assert (Hh2 : heap w2 !! l2 = Some p2)
    by (rewrite Hw2; apply lookup_insert_eq).
  assert (Hs1 : servers w2 !! n = Some (srv1 [])).
  { rewrite Hw2. cbn. rewrite lookup_app_r by (unfold n; lia).
    replace (n - length (servers w)) with 0 by (unfold n; lia). reflexivity. }
  assert (Hs2 : servers w2 !! S n = Some (srv2 [])).
  { rewrite Hw2. cbn. rewrite lookup_app_r by (unfold n; lia).
    replace (S n - length (servers w)) with 1 by (unfold n; lia). reflexivity. }
  pose proof (listen_run_two l1 l2 p1 p2 n (S n) run Hne (n_Sn n)
                (lookup_insert_eq _ _ _) (lookup_insert_eq _ _ _) Hrun
                _ _ w2 Hh1 Hh2 Hs1 Hs2) as Hrun2.
  split; [rewrite Hw2; reflexivity|]. split; [|split].
  - unfold eval, get_property. rewrite Hh1. unfold p1.
    rewrite lookup_insert_eq. reflexivity.
  - unfold eval, get_property. rewrite Hh2. unfold p2.
    rewrite lookup_insert_eq. reflexivity.
  - rewrite Hrun2. cbn. rewrite Hw2. cbn.
    rewrite insert_app_r_alt by (unfold n; lia).
    replace (S n - length (servers w)) with 1 by (unfold n; lia).
    rewrite insert_app_r_alt by (unfold n; lia).
    replace (n - length (servers w)) with 0 by (unfold n; lia). reflexivity.
Qed.

(** *** Requests *)

Variable foreign : string -> value -> list value -> M value.

(** X5.  The request listener of the server that the extension creates is
    the adapter of a handler that looks [fetch] up on the application each
    time it is called: in whatever world a request arrives, the function
    that is the application's [fetch] then is called, as a method of the
    application and on the handler's first argument alone, and what it
    returns or throws is the handler's outcome. *)
Theorem request_reaches_current_fetch (options : value) (l : loc)
    (o : gmap string value) (w : world) :
  heap w !! l = Some o ->
  let w0 := exec (call (nodeServer options) [VObject l]) w in
  exists handler,
    request_listener <$> servers w0 !! length (servers w)
    = Some (VServerAdapter handler)
    /\ forall (w' : world) (o' : gmap string value) (name : string)
          (this request : value) (extra : list value) (fuel : nat),
        heap w' !! l = Some o' ->
        o' !! "fetch" = Some (VFunction name) ->
        apply_function foreign (S (S fuel)) handler this (request :: extra) w'
        = Some (foreign name (VObject l) [request] w').
Proof.
  intros Hl w0. exists (VFetchArrow (VObject l)). split.
  - unfold w0. rewrite (exec_extension options l o w Hl). cbn.
    rewrite lookup_app_r by lia. rewrite Nat.sub_diag. reflexivity.
  - intros w' o' name this request extra fuel Hl' Hfetch.
    cbn [apply_function nth]. unfold get_property. rewrite Hl', Hfetch.
    reflexivity.
Qed.

(** X6.  The extension does not look at the application's [fetch]: it
    succeeds on an object that has none.  The lack shows when a request
    arrives: while the application has no [fetch] the handler throws a
    TypeError, calls nothing and leaves the world as it is. *)
Theorem request_without_fetch_throws (options : value) (l : loc)
    (o : gmap string value) (w : world) :
  heap w !! l = Some o ->
  o !! "fetch" = None ->
  eval (call (nodeServer options) [VObject l]) w = Ok VUndefined
  /\ forall (w' : world) (o' : gmap string value) (this : value)
        (args : list value) (fuel : nat),
      heap w' !! l = Some o' ->
      o' !! "fetch" = None ->
      exists msg,
        apply_function foreign (S (S fuel)) (VFetchArrow (VObject l)) this args w'
        = Some (Throw (TypeError msg), w').
Proof.
  intros Hl Hnone. split.
  - unfold eval. rewrite (call_extension_on_object options l o w Hl).
    reflexivity.
  - intros w' o' this args fuel Hl' Hnone'. exists "not a function".
    cbn [apply_function]. unfold get_property. rewrite Hl', Hnone'.
    reflexivity.
Qed.

End AnyHost.

(** *** On the example hosts *)

Section StrictHost.

#[local] Existing Instance strict_host.

Lemma extension_on_primitive_throws_witness :
  is_primitive VNull = true
  /\ exists msg,
       call (nodeServer VUndefined) [VNull] demo_world
       = (Throw (TypeError msg),
          World (heap demo_world)
                (servers demo_world ++ [HttpServer (adapter_of VNull) []])).
Proof.
  split; [reflexivity|].
  apply (extension_on_primitive_throws VUndefined VNull demo_world).
  reflexivity.
Defined.

Lemma listen_changes_only_its_server_witness :
  servers (exec (call (nodeServer VUndefined) [VObject 0]) demo_world) !! 0
  = Some (HttpServer (adapter_of (VObject 0)) [])
  /\ heap (exec (call_method (VObject 0) "listen" [VNumber 3000])
            (exec (call (nodeServer VUndefined) [VObject 0]) demo_world))
     = heap (exec (call (nodeServer VUndefined) [VObject 0]) demo_world).
Proof.
  split; [reflexivity|].
  apply (listen_changes_only_its_server 0
           (<["listen" := VListen (VHttpServer 0)]> demo_app) 0
           (HttpServer (adapter_of (VObject 0)) [])
           (exec (call (nodeServer VUndefined) [VObject 0]) demo_world)
           [VNumber 3000]);
    reflexivity.
Defined.

Lemma second_extension_rebinds_listen_witness :
  heap demo_world !! 0 = Some demo_app
  /\ servers
       (exec (listen_each (VObject 0) [[VNumber 3000]])
          (exec (call (nodeServer VNull) [VObject 0])
             (exec (call (nodeServer VUndefined) [VObject 0]) demo_world)))
     = [HttpServer (adapter_of (VObject 0)) [];
        HttpServer (adapter_of (VObject 0)) [[VNumber 3000]]].
Proof.
  split; [reflexivity|].
  apply (second_extension_rebinds_listen VUndefined VNull 0 demo_app demo_world
           [[VNumber 3000]]).
  reflexivity.
Defined.

Lemma two_apps_keep_their_servers_witness :
  (0 <> 1
   /\ heap two_apps_world !! 0 = Some demo_app
   /\ heap two_apps_world !! 1 = Some bare_app)
  /\ servers
       (exec (listen_run [(1, [VNumber 3001]); (0, [VNumber 3000]);
                          (1, [VNumber 3002])])
          (exec (call (nodeServer VUndefined) [VObject 1])
             (exec (call (nodeServer VUndefined) [VObject 0]) two_apps_world)))
     = [HttpServer (adapter_of (VObject 0)) [[VNumber 3000]];
        HttpServer (adapter_of (VObject 1)) [[VNumber 3001]; [VNumber 3002]]].
Proof.
  split; [repeat split; discriminate|].
  apply (two_apps_keep_their_servers VUndefined 0 1 demo_app bare_app
           two_apps_world
           [(1, [VNumber 3001]); (0, [VNumber 3000]); (1, [VNumber 3002])]).
  - discriminate.
  - reflexivity.
  - reflexivity.
  - repeat (apply List.Forall_cons; [cbn; auto|]). apply List.Forall_nil.
Defined.

(** The same run with its outcomes: on the host that rejects a repeated
    request, the second call on the second application throws, and the
    server has received it all the same. *)
Example two_apps_on_strict_host :
  eval (listen_run [(1, [VNumber 3001]); (0, [VNumber 3000]);
                    (1, [VNumber 3002])])
    (exec (call (nodeServer VUndefined) [VObject 1])
       (exec (call (nodeServer VUndefined) [VObject 0]) two_apps_world))
  = [Ok (VHttpServer 1); Ok (VHttpServer 0);
     Throw (ForeignCode "ERR_SERVER_ALREADY_LISTEN")].
Proof. reflexivity. Qed.

Lemma request_reaches_current_fetch_witness :
  heap demo_world !! 0 = Some demo_app
  /\ exists handler,
       request_listener
         <$> servers (exec (call (nodeServer VUndefined) [VObject 0]) demo_world)
             !! length (servers demo_world)
       = Some (VServerAdapter handler)
       /\ forall (w' : world) (o' : gmap string value) (name : string)
             (this request : value) (extra : list value) (fuel : nat),
           heap w' !! 0 = Some o' ->
           o' !! "fetch" = Some (VFunction name) ->
           apply_function echo (S (S fuel)) handler this (request :: extra) w'
           = Some (echo name (VObject 0) [request] w').
Proof.
  split; [reflexivity|].
  apply (request_reaches_current_fetch echo VUndefined 0 demo_app demo_world).
  reflexivity.
Defined.

Lemma request_without_fetch_throws_witness :
  (heap two_apps_world !! 1 = Some bare_app /\ bare_app !! "fetch" = None)
  /\ eval (call (nodeServer VUndefined) [VObject 1]) two_apps_world
     = Ok VUndefined.
Proof.
  split; [split; reflexivity|].
  apply (request_without_fetch_throws echo VUndefined 1 bare_app two_apps_world);
    reflexivity.
Defined.

(** A request on the example application, whose [fetch] is the stand-in:
    of the handler's two arguments the first reaches [fetch]. *)
Example request_on_demo_app :
  apply_function echo 2 (VFetchArrow (VObject 0)) VUndefined
    [VString "request"; VString "context"] demo_world
  = Some (Ok (VString "request"), demo_world).
Proof. reflexivity. Qed.

End StrictHost.

End UsageFacts.
